(** * jules-mutation-plots: a shallow embedding of [plot.py]

    The script reads a CSV table of mutation percentages, checks that every
    mutation was measured under the same approaches, and draws one pie chart
    per (approach, mutation) pair into a grid that is saved to a file.

    Conventions of the embedding.
    - A Python [str] is a Rocq [string]; each character stands for the code
      point of the same number, so the model covers the strings whose code
      points are below 256.  Comparison of such strings by code point is
      [String.compare].
    - A Python [int] is a [Z]; a [dict] is an association list in insertion
      order (iteration order matters to the script); an exception is a value
      of [exn] and a computation that can raise returns an [outcome].
    - What depends on the interpreter, on matplotlib or on the machine
      ([float], floating-point subtraction, the sizes that [ax.pie] accepts,
      the file that [savefig] writes or the error it raises, the iteration
      order of a [set]) is a field of the class [Builtins]. *)

From Stdlib Require Import ZArith QArith Ascii String.
From stdpp Require Import base option list sorting strings gmap.

Local Open Scope string_scope.
Local Open Scope Z_scope.
Local Open Scope list_scope.

Abbreviation str := string.

(** ** Exceptions and outcomes *)

(** The payload of a [ValueError], by the place that raises it. *)
Inductive value_error :=
  | not_enough_values (expected got : nat)
      (* not enough values to unpack (expected 2, got 1) *)
  | too_many_values (expected : nat)
      (* too many values to unpack (expected 2) *)
  | not_in_list (x : str)
      (* 'x' is not in list *)
  | could_not_convert (s : str)
      (* could not convert string to float: 's' *)
  | bad_grid_size
      (* Number of rows/columns must be a positive integer *)
  | bad_wedge_sizes
      (* Wedge sizes 'x' must be non negative values *)
  | unsupported_format (format : str).
      (* Format 'xyz' is not supported *)

Inductive exn :=
  | StopIteration
  | AssertionError
  | ValueError (why : value_error)
  | AttributeError
      (* 'NoneType' object has no attribute 'group' *)
  | UnboundLocalError (var : str)
  | KeyError (key : str)
  | IndexError
  | OSError (filename : str)
      (* FileNotFoundError, PermissionError and the like, from opening a file *)
  | SystemExit (code : Z).

Inductive outcome (A : Type) :=
  | Ok (a : A)
  | Raise (e : exn).
Arguments Ok {A} a.
Arguments Raise {A} e.

(** Sequencing: an exception ends the computation. *)
#[global] Instance outcome_bind : MBind outcome := λ A B k m,
  match m with
  | Ok a => k a
  | Raise e => Raise e
  end.

(** [[f(x) for x in l]], stopping at the first exception. *)
Fixpoint mapM {A B} (f : A → outcome B) (l : list A) : outcome (list B) :=
  match l with
  | [] => Ok []
  | x :: l' => y ← f x; ys ← mapM f l'; Ok (y :: ys)
  end.

(** The exit status of the interpreter for the outcome of the script. *)
Definition exit_status {A} (r : outcome A) : Z :=
  match r with
  | Ok _ => 0
  | Raise (SystemExit code) => code
  | Raise _ => 1
  end.

(** ** Strings *)

Definition code (c : ascii) : N := N_of_ascii c.

(** [c.isspace()] for a code point below 256 *)
Definition isspace (c : ascii) : bool :=
  let n := code c in
  ((9 <=? n) && (n <=? 13) || (28 <=? n) && (n <=? 32)
   || (n =? 133) || (n =? 160))%N.

(** the class [\d] for a code point below 256 *)
Definition isdigit (c : ascii) : bool :=
  let n := code c in ((48 <=? n) && (n <=? 57))%N.

Definition snoc (s : str) (c : ascii) : str := s +:+ String c "".

(** [s.split()]: the maximal runs of non-whitespace characters.  [tok] is
    the run being read. *)
Fixpoint split_ws_from (tok : str) (s : str) : list str :=
  match s with
  | EmptyString => if String.eqb tok "" then [] else [tok]
  | String c s' =>
      if isspace c
      then if String.eqb tok "" then split_ws_from "" s'
           else tok :: split_ws_from "" s'
      else split_ws_from (snoc tok c) s'
  end.

Definition split_ws (s : str) : list str := split_ws_from "" s.

(** [s.split(sep)] for a separator of one character: one more part than
    there are separators. *)
Fixpoint split_from (sep : ascii) (tok : str) (s : str) : list str :=
  match s with
  | EmptyString => [tok]
  | String c s' =>
      if Ascii.eqb c sep then tok :: split_from sep "" s'
      else split_from sep (snoc tok c) s'
  end.

Definition split (sep : ascii) (s : str) : list str := split_from sep "" s.

(** The longest prefix of digits. *)
Fixpoint digit_run (s : str) : str :=
  match s with
  | EmptyString => ""
  | String c s' => if isdigit c then String c (digit_run s') else ""
  end.

(** [DIGITS = re.compile(r"\d+")]; [DIGITS.search(s)] returns the leftmost
    longest run of digits as the match, or [None].  The match object is
    modelled by the text that [.group()] returns. *)
Fixpoint DIGITS_search (s : str) : option str :=
  match s with
  | EmptyString => None
  | String c s' =>
      if isdigit c then Some (String c (digit_run s')) else DIGITS_search s'
  end.

(** [repr(s)] of a string, as [!r] formats it: the string between quotes,
    single ones unless it has a single quote and no double quote; the quote
    in use and the backslash are escaped with a backslash, tab, newline and
    carriage return are written [\t], [\n], [\r], and the other characters
    that are not printable are written [\xNN]. *)
Definition squote : ascii := "'".
Definition dquote : ascii := ascii_of_N 34.
Definition backslash : ascii := ascii_of_N 92.

Fixpoint has_char (c : ascii) (s : str) : bool :=
  match s with
  | EmptyString => false
  | String c' s' => Ascii.eqb c' c || has_char c s'
  end.

(** [c.isprintable()] for a code point below 256 *)
Definition isprintable (c : ascii) : bool :=
  let n := code c in
  ((32 <=? n) && (n <=? 126) || (161 <=? n) && (n <=? 172) || (174 <=? n))%N.

Definition hexdigit (n : N) : ascii :=
  ascii_of_N (if (n <? 10)%N then 48 + n else 87 + n).

Definition repr_char (quote c : ascii) : str :=
  let n := code c in
  if Ascii.eqb c quote || Ascii.eqb c backslash then String backslash (String c "")
  else if (n =? 9)%N then String backslash "t"
  else if (n =? 10)%N then String backslash "n"
  else if (n =? 13)%N then String backslash "r"
  else if isprintable c then String c ""
  else String backslash
         (String "x" (String (hexdigit (n / 16)) (String (hexdigit (n mod 16)) ""))).

Fixpoint repr_chars (quote : ascii) (s : str) : str :=
  match s with
  | EmptyString => ""
  | String c s' => repr_char quote c +:+ repr_chars quote s'
  end.

Definition repr (s : str) : str :=
  let quote :=
    if has_char squote s && negb (has_char dquote s) then dquote else squote in
  String quote (repr_chars quote s +:+ String quote "").

(** [int(s)] on a string of digits, read from the left with accumulator
    [acc].  (The interpreter's optional cap on the number of digits is not
    modelled.) *)
Fixpoint int_from (acc : Z) (s : str) : Z :=
  match s with
  | EmptyString => acc
  | String c s' => int_from (10 * acc + (Z.of_N (code c) - 48)) s'
  end.

Definition int (s : str) : Z := int_from 0 s.

(** ** Sort keys *)

(** [tissue, approach = name.split()] and the like *)
Definition unpack2 (parts : list str) : outcome (str * str) :=
  match parts with
  | [a; b] => Ok (a, b)
  | _ :: _ :: _ :: _ => Raise (ValueError (too_many_values 2))
  | _ => Raise (ValueError (not_enough_values 2 (length parts)))
  end.

(** [l.index(x)] *)
Fixpoint list_index (x : str) (l : list str) : outcome Z :=
  match l with
  | [] => Raise (ValueError (not_in_list x))
  | y :: l' => if String.eqb y x then Ok 0 else i ← list_index x l'; Ok (i + 1)
  end.

(** [int(b)] of a Boolean *)
Definition int_of_bool (b : bool) : Z := if b then 1 else 0.

Definition rowKey (name : str) : outcome (Z * str * Z) :=
  '(tissue, approach) ← unpack2 (split_ws name);
  approachNumber ← list_index approach ["native"; "cap"];
  let tissueNumber := int_of_bool (negb (String.eqb tissue "Serum")) in
  Ok (tissueNumber, tissue, approachNumber).

Definition columnKey (name : str) : outcome (Z * Z) :=
  '(orf, mutation) ← unpack2 (split ":" name);
  orfMatch ← from_option Ok (Raise AttributeError) (DIGITS_search orf);
  let orfNumber := int orfMatch in
  positionMatch ← from_option Ok (Raise AttributeError) (DIGITS_search mutation);
  let position := int positionMatch in
  Ok (orfNumber, position).

(** [a < b] on tuples: the first position where the two differ decides. *)
Definition rowKey_lt (a b : Z * str * Z) : bool :=
  let '(t1, s1, m1) := a in
  let '(t2, s2, m2) := b in
  if negb (t1 =? t2) then t1 <? t2
  else if negb (String.eqb s1 s2) then String.ltb s1 s2
  else m1 <? m2.

Definition columnKey_lt (a b : Z * Z) : bool :=
  let '(o1, p1) := a in
  let '(o2, p2) := b in
  if negb (o1 =? o2) then o1 <? o2 else p1 <? p2.

(** ** [sorted(iterable, key=...)]

    The keys are computed first, one per element and in order; the sort is
    stable and compares keys with [<] only.  On keys that [<] orders totally
    up to ties every stable sort returns the same list, so the sort is
    written as an insertion sort: an element goes after the elements of the
    sorted tail that are strictly smaller. *)
Section sorted.
Context {K : Type} (lt : K → K → bool).

Fixpoint insert_by (x : K * str) (l : list (K * str)) : list (K * str) :=
  match l with
  | [] => [x]
  | y :: l' => if lt y.1 x.1 then y :: insert_by x l' else x :: y :: l'
  end.

Definition sort_by (l : list (K * str)) : list (K * str) :=
  foldr insert_by [] l.

Definition sorted (key : str → outcome K) (l : list str) : outcome (list str) :=
  keyed ← mapM (fun x => k ← key x; Ok (k, x)) l;
  Ok ((sort_by keyed).*2).
End sorted.

(** ** Builtins taken as parameters *)

Class Builtins (F : Type) := {
  (** [float(s)]; [None] stands for the [ValueError] *)
  float : str → option F;
  (** [x - y] on floating-point numbers *)
  fsub : F → F → F;
  (** the literal [100.0] *)
  hundred : F;
  (** whether [ax.pie] accepts the two wedge sizes; matplotlib raises a
      [ValueError] for a size that is negative (and, in some versions, for
      sizes that are not finite) *)
  pie_accepts : F → F → bool;
  (** [plt.savefig(output)]: the file it writes, or the exception it raises
      before it writes anything.  matplotlib takes the format from the
      extension, adds the default extension to a path without one and
      rejects a format it does not know; opening the file fails for a path
      that cannot be written. *)
  savefig_path : str → outcome str;
  (** the order in which a [set] built from the elements of [l] is iterated:
      some duplicate-free enumeration of them *)
  set_iter : list str → list str;
  set_iter_NoDup l : NoDup (set_iter l);
  set_iter_elem l x : x ∈ set_iter l ↔ x ∈ l
}.

(** ** Dictionaries *)

(** A [dict] with string keys, in insertion order. *)
Definition dict (V : Type) := list (str * V).

(** the keys, as iterating over the dictionary yields them *)
Definition keys {V} (d : dict V) : list str := d.*1.

(** [k in d] *)
Fixpoint dict_mem {V} (k : str) (d : dict V) : bool :=
  match d with
  | [] => false
  | (k', _) :: d' => String.eqb k' k || dict_mem k d'
  end.

Fixpoint dict_get {V} (k : str) (d : dict V) : option V :=
  match d with
  | [] => None
  | (k', v) :: d' => if String.eqb k' k then Some v else dict_get k d'
  end.

(** [d[k]] *)
Definition getitem {V} (d : dict V) (k : str) : outcome V :=
  from_option Ok (Raise (KeyError k)) (dict_get k d).

(** [d[k] = v]: a present key keeps its place, a new key goes last. *)
Fixpoint setitem {V} (k : str) (v : V) (d : dict V) : dict V :=
  match d with
  | [] => [(k, v)]
  | (k', v') :: d' =>
      if String.eqb k' k then (k, v) :: d' else (k', v') :: setitem k v d'
  end.

(** ** Sets of strings

    A set is the list of its elements in iteration order. *)
Definition pyset := list str.

(** [s1 == s2] *)
Definition set_eqb (s1 s2 : pyset) : bool :=
  forallb (λ x, bool_decide (x ∈ s2)) s1 && forallb (λ x, bool_decide (x ∈ s1)) s2.

(** ** The program *)

(** A call made on a matplotlib [Axes] object.  [pie] carries the two
    arguments that put text on the slices; both default to [None]. *)
Inductive call (F : Type) :=
  | set_title (label : str)
  | set_ylabel (label : str)
  | axis (arg : str)
  | pie (x : F * F) (labels : option (list str)) (autopct : option str).
Arguments set_title {F} label.
Arguments set_ylabel {F} label.
Arguments axis {F} arg.
Arguments pie {F} x labels autopct.

(** An [Axes] object is the sequence of calls made on it so far; a figure
    is its grid of axes, [ax[row][col]]. *)
Abbreviation Axes F := (list (call F)).
Abbreviation figure F := (list (list (Axes F))).

(** What the process can change outside itself: the lines the program
    prints to standard error and the files written by [savefig].  (What the
    interpreter and the libraries log on their own is not part of it.) *)
Record world (F : Type) := World {
  stderr : list str;
  files : gmap str (figure F)
}.
Arguments World {F} stderr files.
Arguments stderr {F} w.
Arguments files {F} w.

(** [print(line, file=sys.stderr)] *)
Definition print_stderr {F} (line : str) (w : world F) : world F :=
  World (stderr w ++ [line]) (files w).

(** Writing the figure [fig] to the file [path]. *)
Definition write_file {F} (path : str) (fig : figure F) (w : world F) : world F :=
  World (stderr w) (<[path := fig]> (files w)).

(** [plt.subplots(rows, cols, squeeze=False, ...)]: a grid of fresh axes;
    matplotlib rejects a grid with no row or no column. *)
Definition subplots {F} (rows cols : nat) : outcome (figure F) :=
  if decide (rows = 0%nat ∨ cols = 0%nat) then Raise (ValueError bad_grid_size)
  else Ok (replicate rows (replicate cols [])).

(** Modelled from the spec: [dark.dimension.dimensionalIterator] is not part
    of the sources.  For dimensions (rows, cols) it yields every pair
    (row, col) of the grid once, row by row.  The iterator is modelled by
    the list of the pairs it has yet to yield. *)
Definition dimensionalIterator (rows cols : nat) : list (nat * nat) :=
  row ← seq 0 rows; pair row <$> seq 0 cols.

(** [next(it)] *)
Definition next {A} (it : list A) : outcome (A * list A) :=
  match it with
  | [] => Raise StopIteration
  | x :: it' => Ok (x, it')
  end.

(** [for x in l: st = body(st, x)], stopping at the first exception *)
Fixpoint for_each {A S} (body : S → A → outcome S) (l : list A) (st : S) : outcome S :=
  match l with
  | [] => Ok st
  | x :: l' => st' ← body st x; for_each body l' st'
  end.

Section program.
Context {F : Type} `{!Builtins F}.

(** The measurement table: mutation name, then approach name, to the
    percentage or [None]. *)
Definition table := dict (dict (option F)).

Definition unpack4 (row : list str) : outcome (str * str * str * str) :=
  match row with
  | [a; b; c; d] => Ok (a, b, c, d)
  | _ :: _ :: _ :: _ :: _ :: _ => Raise (ValueError (too_many_values 4))
  | _ => Raise (ValueError (not_enough_values 4 (length row)))
  end.

Definition found_twice (approach name : str) : str :=
  "Approach name " +:+ repr approach +:+ " found twice for " +:+ repr name +:+ ".".

(** The body of the loop over the data rows of [getData], then the loop. *)
Definition getData_row (row : list str) (result : table) (w : world F)
  : outcome table * world F :=
  match unpack4 row with
  | Raise e => (Raise e, w)
  | Ok (name, approach, percent, _) =>
      let result := if dict_mem name result then result else setitem name [] result in
      match getitem result name with
      | Raise e => (Raise e, w)
      | Ok inner =>
          if dict_mem approach inner
          then (Raise (SystemExit 1), print_stderr (found_twice approach name) w)
          else if String.eqb percent ""
          then (Ok (setitem name (setitem approach None inner) result), w)
          else match float percent with
               | None => (Raise (ValueError (could_not_convert percent)), w)
               | Some x => (Ok (setitem name (setitem approach (Some x) inner) result), w)
               end
      end
  end.

Fixpoint getData_rows (reader : list (list str)) (result : table) (w : world F)
  : outcome table * world F :=
  match reader with
  | [] => (Ok result, w)
  | row :: reader' =>
      match getData_row row result w with
      | (Ok result', w') => getData_rows reader' result' w'
      | (Raise e, w') => (Raise e, w')
      end
  end.

(** [getData]: [reader] is the list of rows that [csv.reader] yields for the
    file. *)
Definition getData (reader : list (list str)) (w : world F) : outcome table * world F :=
  match next reader with
  | Raise e => (Raise e, w)
  | Ok (header, reader) =>
      if decide (header = ["Mutation"; "sample"; "%Mutation"; "%Rest"])
      then getData_rows reader [] w
      else (Raise AssertionError, w)
  end.

(** [set(d)] of a dictionary: the set of its keys *)
Definition set_of {V} (d : dict V) : pyset := set_iter (keys d).

(** The loop of [checkApproachNames] carries [first] and [approaches]; the
    latter is unbound ([None]) until the first pass. *)
Definition checkApproachNames_step (data : table)
    (st : bool * option pyset) (name : str) : outcome (bool * option pyset) :=
  let '(first, approaches) := st in
  if first then
    inner ← getitem data name;
    Ok (false, Some (set_of inner))
  else
    inner ← getitem data name;
    approaches' ← from_option Ok (Raise (UnboundLocalError "approaches")) approaches;
    if set_eqb (set_of inner) approaches' then Ok st else Raise AssertionError.

Definition checkApproachNames (data : table) : outcome pyset :=
  '(_, approaches) ← for_each (checkApproachNames_step data) (keys data) (true, None);
  from_option Ok (Raise (UnboundLocalError "approaches")) approaches.

(** [plotPie] changes the axes it is given; the model returns them.  The
    call of [ax.pie] can raise. *)
Definition plotPie (percent : option F) (ax : Axes F) (row col : nat)
    (approach name : str) : outcome (Axes F) :=
  let ax := if decide (row = 0%nat) then ax ++ [set_title name] else ax in
  let ax := if decide (col = 0%nat) then ax ++ [set_ylabel approach] else ax in
  match percent with
  | None => Ok (ax ++ [axis "off"])
  | Some percent =>
      let sizes := (percent, fsub hundred percent) in
      if pie_accepts sizes.1 sizes.2 then Ok (ax ++ [pie sizes None None])
      else Raise (ValueError bad_wedge_sizes)
  end.

(** [a[i]] on a list *)
Definition index {A} (a : list A) (i : nat) : outcome A :=
  from_option Ok (Raise IndexError) (a !! i).

(** The body of the inner loop of [makePlot]; the state is the iterator
    [coords] and the grid [ax]. *)
Definition makePlot_panel (data : table) (approach : str)
    (st : list (nat * nat) * figure F) (name : str)
  : outcome (list (nat * nat) * figure F) :=
  let '(coords, ax) := st in
  '((row, col), coords) ← next coords;
  inner ← getitem data name;
  percent ← getitem inner approach;
  axrow ← index ax row;
  panel ← index axrow col;
  panel ← plotPie percent panel row col approach name;
  Ok (coords, <[row := <[col := panel]> axrow]> ax).

(** The body of the outer loop. *)
Definition makePlot_row (data : table)
    (st : list (nat * nat) * figure F) (approach : str)
  : outcome (list (nat * nat) * figure F) :=
  names ← sorted columnKey_lt columnKey (keys data);
  for_each (makePlot_panel data approach) names st.

(** Everything [makePlot] does before it saves the figure. *)
Definition makePlot_draw (data : table) : outcome (figure F) :=
  approaches ← checkApproachNames data;
  let rows := length approaches in
  let cols := length data in
  ax ← subplots rows cols;
  let coords := dimensionalIterator rows cols in
  sortedApproaches ← sorted rowKey_lt rowKey approaches;
  '(_, ax) ← for_each (makePlot_row data) sortedApproaches (coords, ax);
  Ok ax.

(** [plt.savefig(output, bbox_inches="tight")] of the figure [fig]: a path
    that is refused leaves the files as they are (an error raised while a
    file is being written, which could leave a part of it, is not
    modelled). *)
Definition savefig (output : str) (fig : figure F) (w : world F)
  : outcome () * world F :=
  match savefig_path output with
  | Raise e => (Raise e, w)
  | Ok path => (Ok (), write_file path fig w)
  end.

Definition makePlot (data : table) (output : str) (w : world F) : outcome () * world F :=
  match makePlot_draw data with
  | Raise e => (Raise e, w)
  | Ok ax => savefig output ax w
  end.

(** [main], after the command line is parsed: [reader] is the content of
    the input file and [output] the value of [--output].  (The update of
    [rcParams] changes fonts only.) *)
Definition main (reader : list (list str)) (output : str) (w : world F)
  : outcome () * world F :=
  match getData reader w with
  | (Raise e, w') => (Raise e, w')
  | (Ok data, w') => makePlot data output w'
  end.

End program.

(** ** An instance of the builtins for examples

    [float] is restricted to plain decimal literals (a sign, digits, at most
    one point) and returns the rational the literal denotes.  The
    interpreter returns the binary64 number nearest to it, which is the same
    number whenever the literal denotes an integer below 2^53 or a dyadic
    fraction such as [12.5].  [ax.pie] accepts the sizes that are not
    negative.  [savefig] follows matplotlib on a machine where every path
    can be written: the format is the extension in lower case, the default
    one, png, is added to a path without extension, and a format outside
    the usual list is rejected.  A set is iterated in the order of first
    insertion.  The examples use the instance inside these limits only. *)

Fixpoint all_digits (s : str) : bool :=
  match s with
  | EmptyString => true
  | String c s' => isdigit c && all_digits s'
  end.

Definition decimal_float (s : str) : option Q :=
  let '(sign, body) :=
    match s with
    | String "-" s' => (-1, s')
    | String "+" s' => (1, s')
    | _ => (1, s)
    end in
  match split "." body with
  | [whole] =>
      if all_digits whole && negb (String.eqb whole "")
      then Some (sign * int whole # 1)%Q else None
  | [whole; frac] =>
      if all_digits whole && all_digits frac
         && negb (String.eqb whole "" && String.eqb frac "")
      then Some (sign * int (whole +:+ frac) # Z.to_pos (10 ^ Z.of_nat (String.length frac)))%Q
      else None
  | _ => None
  end.

(** [c.lower()] for a code point below 256 *)
Definition lower_char (c : ascii) : ascii :=
  let n := code c in
  if ((65 <=? n) && (n <=? 90) || (192 <=? n) && (n <=? 222) && negb (n =? 215))%N
  then ascii_of_N (n + 32) else c.

Fixpoint lower (s : str) : str :=
  match s with
  | EmptyString => ""
  | String c s' => String (lower_char c) (lower s')
  end.

(** [s.rstrip('.')] *)
Fixpoint rstrip_dots (s : str) : str :=
  match s with
  | EmptyString => ""
  | String c s' =>
      let rest := rstrip_dots s' in
      if Ascii.eqb c "." && String.eqb rest "" then "" else String c rest
  end.

(** [os.path.splitext(path)[1][1:]]: what follows the last dot of the last
    component of the path, when something other than dots precedes that dot
    in the component. *)
Definition extension (path : str) : str :=
  let parts := split "." (List.last (split "/" path) "") in
  if forallb (λ part, String.eqb part "") (removelast parts) then ""
  else List.last parts "".

Definition supported_formats : list str :=
  ["eps"; "jpeg"; "jpg"; "pdf"; "pgf"; "png"; "ps"; "raw"; "rgba"; "svg";
   "svgz"; "tif"; "tiff"; "webp"].

Definition default_savefig_path (output : str) : outcome str :=
  let format := extension output in
  if String.eqb format "" then Ok (rstrip_dots output +:+ ".png")
  else if bool_decide (lower format ∈ supported_formats) then Ok output
  else Raise (ValueError (unsupported_format (lower format))).

#[global] Instance decimal_builtins : Builtins Q := {|
  float := decimal_float;
  fsub := Qminus;
  hundred := 100%Q;
  pie_accepts := λ x y, Qle_bool 0 x && Qle_bool 0 y;
  savefig_path := default_savefig_path;
  set_iter := remove_dups;
  set_iter_NoDup := NoDup_remove_dups;
  set_iter_elem := λ l x, elem_of_remove_dups l x
|}.

(** Example data. *)
Definition empty_world : world Q := World [] ∅.

Definition header : list str := ["Mutation"; "sample"; "%Mutation"; "%Rest"].

Definition example_rows : list (list str) :=
  [ header;
    ["ORF10:A12T"; "Serum native"; "12.5"; "87.5"];
    ["ORF10:A12T"; "Serum cap"; ""; ""];
    ["ORF2:B100C"; "Serum cap"; "2"; "98"];
    ["ORF2:B100C"; "Serum native"; "3"; "97"] ].

Definition example_table : table :=
  [ ("ORF10:A12T", [("Serum native", Some 12.5%Q); ("Serum cap", None)]);
    ("ORF2:B100C", [("Serum cap", Some 2%Q); ("Serum native", Some 3%Q)]) ].

(** ** Spec-level vocabulary *)

(** [s] has no whitespace character / no digit / no occurrence of [c]. *)
Fixpoint no_space (s : str) : bool :=
  match s with
  | EmptyString => true
  | String c s' => negb (isspace c) && no_space s'
  end.

Fixpoint no_digit (s : str) : bool :=
  match s with
  | EmptyString => true
  | String c s' => negb (isdigit c) && no_digit s'
  end.

Fixpoint no_char (sep : ascii) (s : str) : bool :=
  match s with
  | EmptyString => true
  | String c s' => negb (Ascii.eqb c sep) && no_char sep s'
  end.

(** A token: a non-empty string without whitespace. *)
Definition is_token (s : str) : bool := negb (String.eqb s "") && no_space s.

(** [run] is the first run of decimal digits of [s]: a non-empty block of
    digits, with no digit before it and none right after it. *)
Definition first_digit_run (s run : str) : Prop :=
  ∃ pre post,
    s = pre +:+ run +:+ post ∧ no_digit pre = true
    ∧ run ≠ "" ∧ all_digits run = true ∧ digit_run post = "".

(** The row order in the words of the specification, on names split into
    tissue and method: Serum before the other tissues, then by tissue, then
    native before cap. *)
Definition row_order (a b : str * str) : Prop :=
  let '(t1, m1) := a in
  let '(t2, m2) := b in
  (t1 = "Serum" ∧ t2 ≠ "Serum")
  ∨ ((t1 = "Serum" ↔ t2 = "Serum") ∧ String.ltb t1 t2 = true)
  ∨ (t1 = t2 ∧ (m1 = "native" ∨ m2 = "cap")).

(** The column order in the words of the specification: ascending by the
    pair (ORF number, position number). *)
Definition column_order (a b : Z * Z) : Prop :=
  a.1 < b.1 ∨ (a.1 = b.1 ∧ a.2 ≤ b.2).

(** [name] is [orf:mutation] with exactly one colon. *)
Definition well_split (name orf mutation : str) : Prop :=
  name = orf +:+ ":" +:+ mutation
  ∧ no_char ":" orf = true ∧ no_char ":" mutation = true.

(** [name] is [orf:mutation], and [k] holds the numbers read from the first
    run of digits of each of the two tokens. *)
Definition site_numbers (name : str) (k : Z * Z) : Prop :=
  ∃ orf mutation r1 r2,
    well_split name orf mutation
    ∧ first_digit_run orf r1 ∧ first_digit_run mutation r2
    ∧ k = (int r1, int r2).

(** the number of occurrences of [sep] in [s] *)
Fixpoint count_char (sep : ascii) (s : str) : nat :=
  match s with
  | EmptyString => 0
  | String c s' => (if Ascii.eqb c sep then 1 else 0) + count_char sep s'
  end.

(** A name that [columnKey] cannot read, in the words of the specification:
    it does not have exactly one colon, or one of its two tokens has no
    digit. *)
Definition malformed (name : str) : Prop :=
  count_char ":" name ≠ 1%nat
  ∨ ∃ orf mutation, well_split name orf mutation
      ∧ (no_digit orf = true ∨ no_digit mutation = true).

(** [name] is [tissue method], two tokens separated by whitespace. *)
Definition tissue_method (name : str) (tm : str * str) : Prop :=
  split_ws name = [tm.1; tm.2].

(** [a <= b] for the keys of a sort: [b] is not below [a]. *)
Definition key_le {K} (lt : K → K → bool) (a b : K) : Prop := lt b a = false.

(** The order of the keyed elements that [sort_by] rearranges. *)
Definition keyed_le {K} (lt : K → K → bool) (p q : K * str) : Prop :=
  key_le lt p.1 q.1.

(** [data[name]] has the approach names [approaches]. *)
Definition same_names `{Builtins F} (data : dict (dict (option F)))
    (approaches : pyset) (name : str) : bool :=
  match dict_get name data with
  | Some inner => set_eqb (set_of inner) approaches
  | None => false
  end.

(** [data[name][approach]] as a partial function: [None] when a key is
    missing, [Some None] for the null marker. *)
Definition table_get {F} (data : dict (dict (option F))) (name approach : str)
  : option (option F) :=
  inner ← dict_get name data; dict_get approach inner.

(** [v] is what the loader stores for the percent field [percent]. *)
Definition percent_value `{Builtins F} (percent : str) (v : option F) : Prop :=
  (percent = "" ∧ v = None)
  ∨ (percent ≠ "" ∧ ∃ x, float percent = Some x ∧ v = Some x).

(** A data row of four fields whose percent field is empty or a number. *)
Definition data_row `{Builtins F} (row : list str) : Prop :=
  ∃ name approach percent rest,
    row = [name; approach; percent; rest]
    ∧ (percent = "" ∨ is_Some (float percent)).

(** The pair (mutation, approach) appears in the rows [i < j] of [rows]. *)
Definition twice_in (rows : list (list str)) (name approach : str) : Prop :=
  ∃ (i j : nat) percent rest percent' rest',
    (i < j)%nat
    ∧ rows !! i = Some [name; approach; percent; rest]
    ∧ rows !! j = Some [name; approach; percent'; rest'].

(** The panel of a figure at a grid coordinate. *)
Definition panel_at {F} (fig : figure F) (row col : nat) : option (Axes F) :=
  axrow ← fig !! row; axrow !! col.

(** The labels of a panel: the mutation name as title in the first row, the
    approach name as label of the y axis in the first column. *)
Definition panel_labels {F} (row col : nat) (approach name : str) : list (call F) :=
  (if decide (row = 0%nat) then [set_title name] else [])
  ++ (if decide (col = 0%nat) then [set_ylabel approach] else []).

(** A table as the loader builds it: no mutation listed twice, and for each
    mutation at least one approach and no approach listed twice. *)
Definition table_wf {F} (data : dict (dict (option F))) : Prop :=
  NoDup (keys data)
  ∧ Forall (λ entry, entry.2 ≠ [] ∧ NoDup (keys entry.2)) data.

(** The number of measurements of a table, null ones included. *)
Definition entries {F} (data : dict (dict (option F))) : nat :=
  sum_list (length <$> data.*2).

(** The distinct strings of a list in the order in which they first appear;
    [seen] holds those met so far. *)
Fixpoint first_seen_from (seen : list str) (l : list str) : list str :=
  match l with
  | [] => seen
  | x :: l' =>
      first_seen_from (if bool_decide (x ∈ seen) then seen else seen ++ [x]) l'
  end.

(** The mutation names of the data rows that have four fields. *)
Definition row_names (rows : list (list str)) : list str :=
  omap (λ row, match row with [name; _; _; _] => Some name | _ => None end) rows.

(** A string of printable characters without quotes or backslash. *)
Definition plain_char (c : ascii) : bool :=
  isprintable c && negb (Ascii.eqb c squote) && negb (Ascii.eqb c dquote)
  && negb (Ascii.eqb c backslash).

Fixpoint plain (s : str) : bool :=
  match s with
  | EmptyString => true
  | String c s' => plain_char c && plain s'
  end.

(** The calls that draw a measurement: the axis switched off for the null
    marker, one pie with the slices (percent, 100 - percent) and no text on
    the slices for a number. *)
Definition panel_drawing `{Builtins F} (percent : option F) : list (call F) :=
  match percent with
  | None => [axis "off"]
  | Some p => [pie (p, fsub hundred p) None None]
  end.

(** All the calls made on the panel of a pair. *)
Definition panel_calls `{Builtins F} (row col : nat) (approach name : str)
    (percent : option F) : list (call F) :=
  panel_labels row col approach name ++ panel_drawing percent.

(** [ax.pie] accepts the slices of the measurement (the null marker makes
    no call). *)
Definition pie_ok `{Builtins F} (percent : option F) : bool :=
  match percent with
  | None => true
  | Some p => pie_accepts p (fsub hundred p)
  end.

(** ... for the measurement of a pair, and for all the pairs of a row. *)
Definition cell_ok `{Builtins F} (data : dict (dict (option F)))
    (approach name : str) : bool :=
  match table_get data name approach with
  | Some percent => pie_ok percent
  | None => true
  end.

(** [ax.pie] accepts the slices of every number of the table. *)
Definition table_pies_ok `{Builtins F} (data : dict (dict (option F))) : Prop :=
  ∀ name approach p,
    table_get data name approach = Some (Some p) →
    pie_accepts p (fsub hundred p) = true.

(** * Properties *)

(** ** Order on strings *)

Lemma ascii_compare_refl (a : ascii) : Ascii.compare a a = Eq.
Proof. apply N.compare_refl. Qed.

Lemma string_compare_refl (s : str) : String.compare s s = Eq.
Proof. induction s as [|a s IH]; simpl; [done|]. by rewrite ascii_compare_refl. Qed.

Lemma string_compare_lt_trans (s1 s2 s3 : str) :
  String.compare s1 s2 = Lt → String.compare s2 s3 = Lt → String.compare s1 s3 = Lt.
Proof.
  revert s2 s3. induction s1 as [|a s1 IH]; intros [|b s2] [|c s3]; simpl; try done.
  unfold Ascii.compare.
  destruct (N.compare_spec (N_of_ascii a) (N_of_ascii b)) as [Hab|Hab|Hab]; try done;
    destruct (N.compare_spec (N_of_ascii b) (N_of_ascii c)) as [Hbc|Hbc|Hbc]; try done;
    destruct (N.compare_spec (N_of_ascii a) (N_of_ascii c)) as [Hac|Hac|Hac];
    try lia; try done.
  apply IH.
Qed.

Lemma string_ltb_irrefl (s : str) : String.ltb s s = false.
Proof. unfold String.ltb. by rewrite string_compare_refl. Qed.

Lemma string_ltb_asym (s1 s2 : str) :
  String.ltb s1 s2 = true → String.ltb s2 s1 = false.
Proof.
  unfold String.ltb. rewrite (String.compare_antisym s2 s1).
  by destruct (String.compare s1 s2).
Qed.

Lemma string_ltb_trans (s1 s2 s3 : str) :
  String.ltb s1 s2 = true → String.ltb s2 s3 = true → String.ltb s1 s3 = true.
Proof.
  unfold String.ltb.
  destruct (String.compare s1 s2) eqn:H12; try done.
  destruct (String.compare s2 s3) eqn:H23; try done.
  by rewrite (string_compare_lt_trans _ _ _ H12 H23).
Qed.

Lemma string_ltb_connex (s1 s2 : str) :
  String.ltb s1 s2 = false → String.ltb s2 s1 = false → s1 = s2.
Proof.
  unfold String.ltb. rewrite (String.compare_antisym s2 s1).
  destruct (String.compare s1 s2) eqn:H12; try done.
  intros _ _. by apply String.compare_eq_iff.
Qed.

Lemma string_le_trans (s1 s2 s3 : str) :
  String.ltb s2 s1 = false → String.ltb s3 s2 = false → String.ltb s3 s1 = false.
Proof.
  intros H21 H32. destruct (String.ltb s3 s1) eqn:H31; [|done].
  destruct (String.ltb s1 s2) eqn:H12.
  - by rewrite (string_ltb_trans _ _ _ H31 H12) in H32.
  - rewrite (string_ltb_connex _ _ H12 H21) in H31. congruence.
Qed.

Lemma string_eqb_eq (s1 s2 : str) : String.eqb s1 s2 = bool_decide (s1 = s2).
Proof. case_bool_decide; [by apply String.eqb_eq | by apply String.eqb_neq]. Qed.

(** ** The two key orders are strict weak orders *)

Ltac key_cases :=
  repeat match goal with
  | |- context [Z.eqb ?a ?b] => destruct (Z.eqb_spec a b); simplify_eq/=
  | |- context [Z.ltb ?a ?b] => destruct (Z.ltb_spec a b); simplify_eq/=
  | |- context [bool_decide ?P] => case_bool_decide; simplify_eq/=
  end.

Lemma rowKey_lt_asym a b : rowKey_lt a b = true → rowKey_lt b a = false.
Proof.
  destruct a as [[t1 s1] m1], b as [[t2 s2] m2]; unfold rowKey_lt.
  rewrite !string_eqb_eq. key_cases; try done; try lia;
    apply string_ltb_asym.
Qed.

Lemma rowKey_le_trans : Transitive (key_le rowKey_lt).
Proof.
  intros [[t1 s1] m1] [[t2 s2] m2] [[t3 s3] m3]; unfold key_le, rowKey_lt.
  rewrite !string_eqb_eq. key_cases; try done; try lia;
    rewrite ?string_ltb_irrefl; try done;
    first [ apply string_le_trans
          | intros Ha Hb; pose proof (string_ltb_connex _ _ Hb Ha); congruence ].
Qed.

Lemma columnKey_lt_asym a b : columnKey_lt a b = true → columnKey_lt b a = false.
Proof.
  destruct a as [o1 p1], b as [o2 p2]; unfold columnKey_lt.
  key_cases; try done; lia.
Qed.

Lemma columnKey_le_trans : Transitive (key_le columnKey_lt).
Proof.
  intros [o1 p1] [o2 p2] [o3 p3]; unfold key_le, columnKey_lt.
  key_cases; try done; lia.
Qed.

(** ** [sorted] returns an ordered rearrangement *)

Section sorted_facts.
Context {K : Type} (lt : K → K → bool).
Hypothesis lt_asym : ∀ a b, lt a b = true → lt b a = false.
Hypothesis le_trans : Transitive (key_le lt).

Lemma insert_by_Permutation x l : insert_by lt x l ≡ₚ x :: l.
Proof.
  induction l as [|y l IH]; simpl; [done|].
  destruct (lt y.1 x.1); [|done]. rewrite IH. apply Permutation_swap.
Qed.

Lemma sort_by_Permutation l : sort_by lt l ≡ₚ l.
Proof.
  induction l as [|x l IH]; simpl; [done|].
  by rewrite insert_by_Permutation, IH.
Qed.

Lemma insert_by_sorted x l :
  StronglySorted (keyed_le lt) l → StronglySorted (keyed_le lt) (insert_by lt x l).
Proof.
  induction 1 as [|y l Hl IH Hy]; simpl.
  - repeat constructor.
  - destruct (lt y.1 x.1) eqn:Hyx.
    + constructor; [done|].
      rewrite insert_by_Permutation. constructor; [|done].
      by apply lt_asym.
    + constructor; [by constructor|].
      constructor; [done|].
      eapply Forall_impl; [apply Hy|].
      intros z Hz. by apply (le_trans _ y.1).
Qed.

Lemma sort_by_sorted l : StronglySorted (keyed_le lt) (sort_by lt l).
Proof.
  induction l as [|x l IH]; simpl; [constructor|]. by apply insert_by_sorted.
Qed.

Lemma mapM_keyed (key : str → outcome K) l keyed :
  mapM (λ x, k ← key x; Ok (k, x)) l = Ok keyed →
  keyed.*2 = l ∧ Forall (λ p, key p.2 = Ok p.1) keyed.
Proof.
  revert keyed. induction l as [|x l IH]; intros keyed; simpl.
  - intros [= <-]. by split.
  - destruct (key x) as [k|e] eqn:Hk; simpl; [|done].
    destruct (mapM _ l) as [ks|e] eqn:Hks; simpl; [|done].
    intros [= <-]. destruct (IH ks eq_refl) as [<- HF].
    split; [done|]. by constructor.
Qed.

Lemma mapM_keyed_ok (key : str → outcome K) l :
  Forall (λ x, ∃ k, key x = Ok k) l →
  ∃ keyed, mapM (λ x, k ← key x; Ok (k, x)) l = Ok keyed.
Proof.
  induction 1 as [|x l [k Hk] _ [ks IH]]; simpl; [by eexists|].
  rewrite Hk; simpl. rewrite IH; simpl. by eexists.
Qed.

Lemma sorted_spec (key : str → outcome K) l :
  Forall (λ x, ∃ k, key x = Ok k) l →
  ∃ l', sorted lt key l = Ok l' ∧ l' ≡ₚ l
    ∧ StronglySorted
        (λ x y, ∃ kx ky, key x = Ok kx ∧ key y = Ok ky ∧ key_le lt kx ky) l'.
Proof.
  intros Hl. destruct (mapM_keyed_ok key l Hl) as [keyed Hkeyed].
  destruct (mapM_keyed _ _ _ Hkeyed) as [<- HF].
  unfold sorted. rewrite Hkeyed; simpl. eexists; split; [done|].
  split; [by rewrite sort_by_Permutation|].
  assert (Forall (λ p, key p.2 = Ok p.1) (sort_by lt keyed)) as HF'
    by by rewrite sort_by_Permutation.
  pose proof (sort_by_sorted keyed) as HS.
  induction HS as [|p ps Hps IH Hp]; simpl; [constructor|].
  apply Forall_cons in HF' as [Hkp HF'].
  constructor; [by apply IH|].
  apply Forall_fmap, Forall_forall. intros q Hq; simpl.
  exists p.1, q.1. split_and!; [done| |].
  - by eapply Forall_forall in HF'.
  - by eapply Forall_forall in Hp.
Qed.

(** A call of [sorted] that returns tells that every key was computed. *)
Lemma sorted_Ok (key : str → outcome K) l l' :
  sorted lt key l = Ok l' → l' ≡ₚ l ∧ Forall (λ x, ∃ k, key x = Ok k) l.
Proof.
  unfold sorted. destruct (mapM _ l) as [keyed|e] eqn:Hkeyed; simpl; [|done].
  intros [= <-]. destruct (mapM_keyed _ _ _ Hkeyed) as [<- HF].
  split; [by rewrite sort_by_Permutation|].
  apply Forall_fmap. eapply Forall_impl; [apply HF|].
  intros p Hp; simpl in *. by exists p.1.
Qed.

End sorted_facts.

Lemma Permutation_3_inv {A} (a b c : A) l :
  l ≡ₚ [a; b; c] →
  l = [a; b; c] ∨ l = [a; c; b] ∨ l = [b; a; c]
  ∨ l = [b; c; a] ∨ l = [c; a; b] ∨ l = [c; b; a].
Proof.
  intros Hl.
  destruct (Permutation_vs_cons_inv Hl) as (l1 & l2 & ->).
  apply (Permutation_app_inv l1 l2 [] [b; c]) in Hl; simpl in Hl.
  symmetry in Hl. apply Permutation_length_2_inv in Hl.
  destruct l1 as [|u [|v [|]]]; destruct Hl; simplify_eq/=; auto 10.
Qed.

(** ** Splitting and searching *)

Lemma append_empty_l (s : str) : "" +:+ s = s.
Proof. done. Qed.

Lemma append_cons c (s t : str) : String c s +:+ t = String c (s +:+ t).
Proof. done. Qed.

Lemma append_empty_r (s : str) : s +:+ "" = s.
Proof. induction s as [|c s IH]; [done|]. by rewrite append_cons, IH. Qed.

Lemma snoc_append (tok : str) c (s : str) : snoc tok c +:+ s = tok +:+ String c s.
Proof.
  unfold snoc. induction tok as [|c' tok IH]; [done|]. by rewrite !append_cons, IH.
Qed.

Lemma split_ws_from_token tok t s :
  no_space t = true → split_ws_from tok (t +:+ s) = split_ws_from (tok +:+ t) s.
Proof.
  revert tok. induction t as [|c t IH]; intros tok; rewrite ?append_cons; simpl.
  - by rewrite append_empty_r.
  - intros [Hc Ht]%andb_prop. apply negb_true_iff in Hc. rewrite Hc.
    by rewrite IH, snoc_append.
Qed.

(** A name written as two tokens with one space between them splits into
    these tokens. *)
Lemma tissue_method_name t m :
  is_token t = true → is_token m = true → tissue_method (t +:+ " " +:+ m) (t, m).
Proof.
  unfold is_token, tissue_method, split_ws.
  intros [Ht1 Ht2]%andb_prop [Hm1 Hm2]%andb_prop; simpl.
  rewrite split_ws_from_token, append_cons, !append_empty_l by done; simpl.
  apply negb_true_iff in Ht1, Hm1. rewrite Ht1.
  rewrite <-(append_empty_r m) at 1.
  rewrite split_ws_from_token, append_empty_l by done; simpl. by rewrite Hm1.
Qed.

Lemma split_from_no_char sep tok a s :
  no_char sep a = true → split_from sep tok (a +:+ s) = split_from sep (tok +:+ a) s.
Proof.
  revert tok. induction a as [|c a IH]; intros tok; rewrite ?append_cons; simpl.
  - by rewrite append_empty_r.
  - intros [Hc Ha]%andb_prop. apply negb_true_iff in Hc. rewrite Hc.
    by rewrite IH, snoc_append.
Qed.

Lemma split_name sep a b :
  no_char sep a = true → no_char sep b = true →
  split sep (a +:+ String sep b) = [a; b].
Proof.
  intros Ha Hb. unfold split. rewrite split_from_no_char, append_empty_l by done; simpl.
  rewrite Ascii.eqb_refl. rewrite <-(append_empty_r b) at 1.
  by rewrite split_from_no_char, append_empty_l.
Qed.

Lemma split_from_length sep tok s :
  length (split_from sep tok s) = S (count_char sep s).
Proof.
  revert tok. induction s as [|c s IH]; intros tok; simpl; [done|].
  destruct (Ascii.eqb c sep); simpl; by rewrite IH.
Qed.

Lemma digit_run_spec s :
  ∃ post, s = digit_run s +:+ post
    ∧ all_digits (digit_run s) = true ∧ digit_run post = "".
Proof.
  induction s as [|c s (post & Hs & Hrun & Hpost)]; simpl.
  - by exists "".
  - destruct (isdigit c) eqn:Hc; simpl.
    + exists post. rewrite Hc, append_cons; simpl. by rewrite <-Hs.
    + exists (String c s). simpl. by rewrite Hc.
Qed.

Lemma DIGITS_search_spec s :
  no_digit s = false → ∃ run, DIGITS_search s = Some run ∧ first_digit_run s run.
Proof.
  induction s as [|c s IH]; simpl; [done|].
  destruct (isdigit c) eqn:Hc; simpl.
  - intros _. eexists; split; [done|].
    destruct (digit_run_spec s) as (post & Hs & Hrun & Hpost).
    exists "", post. rewrite append_empty_l, append_cons; simpl.
    rewrite Hc; simpl. by rewrite <-Hs.
  - intros (run & Hrun & (pre & post & -> & Hpre & ?))%IH.
    exists run; split; [done|]. exists (String c pre), post; simpl.
    by rewrite Hc.
Qed.

Lemma DIGITS_search_None s : no_digit s = true → DIGITS_search s = None.
Proof.
  induction s as [|c s IH]; simpl; [done|].
  intros [Hc Hs]%andb_prop. apply negb_true_iff in Hc. rewrite Hc. by apply IH.
Qed.

(** ** The keys of well-formed names *)

Lemma rowKey_tissue_method name t m :
  tissue_method name (t, m) → m = "native" ∨ m = "cap" →
  rowKey name
  = Ok (int_of_bool (negb (String.eqb t "Serum")), t, if decide (m = "native") then 0 else 1).
Proof.
  unfold tissue_method, rowKey; simpl. intros -> [-> | ->]; by simpl.
Qed.

Lemma string_ltb_total (s1 s2 : str) :
  s1 ≠ s2 → String.ltb s2 s1 = false → String.ltb s1 s2 = true.
Proof.
  intros Hne H21. destruct (String.ltb s1 s2) eqn:H12; [done|].
  by destruct Hne; apply string_ltb_connex.
Qed.

Lemma rowKey_le_row_order name1 name2 a b k1 k2 :
  tissue_method name1 a → a.2 = "native" ∨ a.2 = "cap" →
  tissue_method name2 b → b.2 = "native" ∨ b.2 = "cap" →
  rowKey name1 = Ok k1 → rowKey name2 = Ok k2 →
  key_le rowKey_lt k1 k2 → row_order a b.
Proof.
  destruct a as [t1 m1], b as [t2 m2]; simpl. intros Ha Hm1 Hb Hm2.
  rewrite (rowKey_tissue_method _ _ _ Ha Hm1), (rowKey_tissue_method _ _ _ Hb Hm2).
  intros [= <-] [= <-]. unfold key_le, rowKey_lt, int_of_bool.
  rewrite !string_eqb_eq.
  clear Ha Hb.
  repeat case_bool_decide; repeat case_decide; simpl; simplify_eq/=;
    try done; rewrite ?string_ltb_irrefl; intros H21;
    first [ by left
          | right; right; split; [done|]; intuition congruence
          | right; left; split; [tauto | by apply string_ltb_total] ].
Qed.

Lemma columnKey_site name orf mutation :
  well_split name orf mutation →
  no_digit orf = false → no_digit mutation = false →
  ∃ k, columnKey name = Ok k ∧ site_numbers name k.
Proof.
  intros Hname Ho Hm. pose proof Hname as (-> & Horf & Hmut).
  destruct (DIGITS_search_spec _ Ho) as (r1 & Hr1 & Hrun1).
  destruct (DIGITS_search_spec _ Hm) as (r2 & Hr2 & Hrun2).
  exists (int r1, int r2). split.
  - unfold columnKey. rewrite append_cons, append_empty_l, split_name by done; simpl.
    rewrite Hr1; simpl. by rewrite Hr2.
  - by exists orf, mutation, r1, r2.
Qed.

Lemma columnKey_le_column_order k1 k2 :
  key_le columnKey_lt k1 k2 → column_order k1 k2.
Proof.
  destruct k1 as [o1 p1], k2 as [o2 p2].
  unfold key_le, columnKey_lt, column_order; simpl. key_cases; intros; lia.
Qed.

Lemma StronglySorted_impl_Forall {A} (P : A → Prop) (R R' : relation A) l :
  (∀ x y, P x → P y → R x y → R' x y) →
  Forall P l → StronglySorted R l → StronglySorted R' l.
Proof.
  intros HR HP HS. induction HS as [|x l Hl IH Hx]; [constructor|].
  apply Forall_cons in HP as [Px HP]. constructor; [by apply IH|].
  rewrite Forall_forall in *. intros y Hy. apply HR; auto.
Qed.

(** ** Row and column order *)

(** C1.  Approach names that split into a tissue and a method, the method
    being native or cap, are sorted by [rowKey] without error, and the
    result lists the same names with Serum before the other tissues, then by
    tissue, then native before cap.  The three names of the example come out
    as Serum native, Serum cap, Saliva native, whatever the order in which
    the set yields them. *)
Theorem sorted_rowKey_order (approaches : list str) :
  Forall (λ name, ∃ t m, tissue_method name (t, m) ∧ (m = "native" ∨ m = "cap"))
    approaches →
  (∃ sortedApproaches,
     sorted rowKey_lt rowKey approaches = Ok sortedApproaches
     ∧ sortedApproaches ≡ₚ approaches
     ∧ StronglySorted
         (λ x y, ∃ a b, tissue_method x a ∧ tissue_method y b ∧ row_order a b)
         sortedApproaches)
  ∧ (∀ l, l ≡ₚ ["Serum native"; "Serum cap"; "Saliva native"] →
       sorted rowKey_lt rowKey l = Ok ["Serum native"; "Serum cap"; "Saliva native"]).
Proof.
  intros Hnames. split.
  - destruct (sorted_spec rowKey_lt rowKey_lt_asym rowKey_le_trans rowKey approaches)
      as (l' & Hsorted & Hperm & HS).
    { eapply Forall_impl; [apply Hnames|]. intros name (t & m & Htm & Hm); simpl.
      rewrite (rowKey_tissue_method _ _ _ Htm Hm). by eexists. }
    exists l'. split_and!; [done..|].
    rewrite <-Hperm in Hnames.
    eapply StronglySorted_impl_Forall; [|apply Hnames|apply HS].
    intros x y (t1 & m1 & Hx & Hm1) (t2 & m2 & Hy & Hm2) (k1 & k2 & Hk1 & Hk2 & Hle).
    exists (t1, m1), (t2, m2). split_and!; [done..|].
    by eapply (rowKey_le_row_order x y (t1, m1) (t2, m2)).
  - intros l Hl. apply Permutation_3_inv in Hl.
    destruct Hl as [->|[->|[->|[->|[->| ->]]]]]; reflexivity.
Qed.

Lemma sorted_rowKey_order_witness :
  ∃ sortedApproaches,
    sorted rowKey_lt rowKey ["Saliva cap"; "Serum cap"; "Serum native"]
    = Ok sortedApproaches
    ∧ sortedApproaches ≡ₚ ["Saliva cap"; "Serum cap"; "Serum native"]
    ∧ StronglySorted
        (λ x y, ∃ a b, tissue_method x a ∧ tissue_method y b ∧ row_order a b)
        sortedApproaches.
Proof.
  apply (sorted_rowKey_order ["Saliva cap"; "Serum cap"; "Serum native"]).
  repeat constructor.
  - exists "Saliva", "cap". split; [reflexivity | by right].
  - exists "Serum", "cap". split; [reflexivity | by right].
  - exists "Serum", "native". split; [reflexivity | by left].
Defined.

(** C2.  Mutation names [orf:mutation] with one colon and a digit in each
    token are sorted by [columnKey] without error, and the result lists the
    same names in ascending order of the pair (number in the first run of
    digits of the ORF token, number in the first run of digits of the
    mutation token).  The three names of the example come out as ORF2:A5G,
    ORF2:B100C, ORF10:A12T, although ORF10:A12T is the least of them as a
    string. *)
Theorem sorted_columnKey_order (names : list str) :
  Forall (λ name, ∃ orf mutation, well_split name orf mutation
            ∧ no_digit orf = false ∧ no_digit mutation = false) names →
  (∃ sortedNames,
     sorted columnKey_lt columnKey names = Ok sortedNames
     ∧ sortedNames ≡ₚ names
     ∧ StronglySorted
         (λ x y, ∃ a b, site_numbers x a ∧ site_numbers y b ∧ column_order a b)
         sortedNames)
  ∧ (∀ l, l ≡ₚ ["ORF10:A12T"; "ORF2:B100C"; "ORF2:A5G"] →
       sorted columnKey_lt columnKey l = Ok ["ORF2:A5G"; "ORF2:B100C"; "ORF10:A12T"])
  ∧ String.ltb "ORF10:A12T" "ORF2:A5G" = true.
Proof.
  intros Hnames. split_and!.
  - destruct (sorted_spec columnKey_lt columnKey_lt_asym columnKey_le_trans
                columnKey names) as (l' & Hsorted & Hperm & HS).
    { eapply Forall_impl; [apply Hnames|]. intros name (orf & mut & Hname & Ho & Hm).
      destruct (columnKey_site _ _ _ Hname Ho Hm) as (k & Hk & _). by exists k. }
    exists l'. split_and!; [done..|].
    rewrite <-Hperm in Hnames.
    eapply StronglySorted_impl_Forall; [|apply Hnames|apply HS].
    intros x y (o1 & m1 & Hx & Ho1 & Hm1) (o2 & m2 & Hy & Ho2 & Hm2)
      (k1 & k2 & Hk1 & Hk2 & Hle).
    destruct (columnKey_site _ _ _ Hx Ho1 Hm1) as (k1' & Hk1' & Hsite1).
    destruct (columnKey_site _ _ _ Hy Ho2 Hm2) as (k2' & Hk2' & Hsite2).
    rewrite Hk1 in Hk1'. rewrite Hk2 in Hk2'.
    injection Hk1' as <-. injection Hk2' as <-.
    exists k1, k2. split_and!; [done..|].
    by apply columnKey_le_column_order.
  - intros l Hl. apply Permutation_3_inv in Hl.
    destruct Hl as [->|[->|[->|[->|[->| ->]]]]]; reflexivity.
  - reflexivity.
Qed.

Lemma sorted_columnKey_order_witness :
  ∃ sortedNames,
    sorted columnKey_lt columnKey ["ORF10:A12T"; "ORF2:A5G"] = Ok sortedNames
    ∧ sortedNames ≡ₚ ["ORF10:A12T"; "ORF2:A5G"]
    ∧ StronglySorted
        (λ x y, ∃ a b, site_numbers x a ∧ site_numbers y b ∧ column_order a b)
        sortedNames.
Proof.
  apply (sorted_columnKey_order ["ORF10:A12T"; "ORF2:A5G"]).
  repeat constructor.
  - exists "ORF10", "A12T". unfold well_split. split_and!; reflexivity.
  - exists "ORF2", "A5G". unfold well_split. split_and!; reflexivity.
Defined.

(** ** Names that [columnKey] rejects *)

Lemma count_char_append sep (a b : str) :
  count_char sep (a +:+ b) = (count_char sep a + count_char sep b)%nat.
Proof.
  induction a as [|c a IH]; [done|]. rewrite append_cons; simpl. rewrite IH. lia.
Qed.

Lemma count_char_no_char sep (a : str) : no_char sep a = true → count_char sep a = 0%nat.
Proof.
  induction a as [|c a IH]; simpl; [done|].
  intros [Hc Ha]%andb_prop. apply negb_true_iff in Hc. rewrite Hc. by rewrite IH.
Qed.

Lemma well_split_count name orf mutation :
  well_split name orf mutation → count_char ":" name = 1%nat.
Proof.
  intros (-> & Ho & Hm). rewrite count_char_append, append_cons, append_empty_l; simpl.
  by rewrite !count_char_no_char.
Qed.

(** C8, as the code has it.  A malformed name makes [columnKey] fail: with a
    [ValueError] about the number of values to unpack when the name has no
    colon or several, and with the [AttributeError] of a failed search when
    a token has no digit.  None of these errors mentions the name. *)
Theorem columnKey_malformed (name : str) :
  malformed name →
  (count_char ":" name = 0%nat
     ∧ columnKey name = Raise (ValueError (not_enough_values 2 1)))
  ∨ ((count_char ":" name > 1)%nat
     ∧ columnKey name = Raise (ValueError (too_many_values 2)))
  ∨ (count_char ":" name = 1%nat ∧ columnKey name = Raise AttributeError).
Proof.
  intros [Hcount | (orf & mutation & Hname & Hdigits)].
  - pose proof (split_from_length ":" "" name) as Hlen. fold (split ":" name) in Hlen.
    unfold columnKey.
    destruct (split ":" name) as [|a [|b [|c parts]]]; simpl in *.
    + lia.
    + left. split; [lia|done].
    + lia.
    + right; left. split; [lia|done].
  - right; right. split; [by eapply well_split_count|].
    destruct Hname as (-> & Ho & Hm). unfold columnKey.
    rewrite append_cons, append_empty_l, split_name by done; simpl.
    destruct Hdigits as [Hd | Hd].
    + by rewrite (DIGITS_search_None _ Hd).
    + rewrite (DIGITS_search_None _ Hd). by destruct (DIGITS_search orf).
Qed.

Lemma columnKey_malformed_witness :
  malformed "ORF:A12T" ∧ columnKey "ORF:A12T" = Raise AttributeError.
Proof.
  assert (malformed "ORF:A12T") as Hbad.
  { right. exists "ORF", "A12T". unfold well_split. split_and!; try reflexivity.
    by left. }
  split; [done|].
  destruct (columnKey_malformed "ORF:A12T" Hbad) as [[H _]|[[H _]|[_ H]]];
    [discriminate H | vm_compute in H; lia | exact H].
Defined.

(** C8, as the specification has it, fails: no function recovers the
    offending name from the error, because two different malformed names
    raise the same error. *)
Lemma columnKey_error_names_nothing :
  ¬ ∃ offender : exn → str,
      ∀ name, malformed name → ∃ e, columnKey name = Raise e ∧ offender e = name.
Proof.
  intros [offender Hoff].
  assert (malformed "ORF:A12T") as H1.
  { right. exists "ORF", "A12T". unfold well_split. split_and!; try reflexivity.
    by left. }
  assert (malformed "ORF1:AT") as H2.
  { right. exists "ORF1", "AT". unfold well_split. split_and!; try reflexivity.
    by right. }
  destruct (Hoff _ H1) as (e1 & He1 & Hn1). destruct (Hoff _ H2) as (e2 & He2 & Hn2).
  vm_compute in He1, He2. simplify_eq. rewrite Hn1 in Hn2. discriminate Hn2.
Qed.

(** ** Dictionaries *)

Section dict_facts.
Context {V : Type}.
Implicit Types (d : dict V) (k : str) (v : V).

Lemma dict_mem_get k d : dict_mem k d = bool_decide (is_Some (dict_get k d)).
Proof.
  induction d as [|[k' v'] d IH]; simpl.
  - done.
  - by destruct (String.eqb k' k).
Qed.

Lemma dict_get_setitem k v d : dict_get k (setitem k v d) = Some v.
Proof.
  induction d as [|[k' v'] d IH]; simpl.
  - by rewrite String.eqb_refl.
  - destruct (String.eqb k' k) eqn:Hk; simpl; [by rewrite String.eqb_refl|].
    by rewrite Hk.
Qed.

Lemma dict_get_setitem_ne k k' v d :
  k ≠ k' → dict_get k' (setitem k v d) = dict_get k' d.
Proof.
  intros Hne. induction d as [|[k0 v0] d IH]; simpl.
  - by apply String.eqb_neq in Hne as ->.
  - destruct (String.eqb k0 k) eqn:Hk; simpl.
    + apply String.eqb_eq in Hk as ->. by apply String.eqb_neq in Hne as ->.
    + by rewrite IH.
Qed.

Lemma keys_setitem_new k v d :
  dict_get k d = None → keys (setitem k v d) = keys d ++ [k].
Proof.
  unfold keys. induction d as [|[k0 v0] d IH]; simpl; [done|].
  destruct (String.eqb k0 k); [done|]. intros Hd; csimpl. f_equal. by apply IH.
Qed.

Lemma keys_setitem_old k v d :
  is_Some (dict_get k d) → keys (setitem k v d) = keys d.
Proof.
  unfold keys. induction d as [|[k0 v0] d IH]; simpl; [by intros [??]|].
  destruct (String.eqb k0 k) eqn:Hk; simpl.
  - apply String.eqb_eq in Hk as ->. done.
  - intros Hd. csimpl. f_equal. by apply IH.
Qed.

Lemma dict_get_Some_keys k v d : dict_get k d = Some v → k ∈ keys d.
Proof.
  unfold keys. induction d as [|[k0 v0] d IH]; simpl; [done|].
  destruct (String.eqb k0 k) eqn:Hk.
  - apply String.eqb_eq in Hk as ->. intros _. left.
  - intros Hd. right. by apply IH.
Qed.

Lemma dict_get_keys k d : k ∈ keys d → is_Some (dict_get k d).
Proof.
  unfold keys. induction d as [|[k0 v0] d IH]; simpl; [by intros ?%elem_of_nil|].
  destruct (String.eqb k0 k) eqn:Hk; [by eexists|].
  apply String.eqb_neq in Hk. intros [?|?]%elem_of_cons; [done|by apply IH].
Qed.

End dict_facts.

(** ** The loader *)

Section getData_facts.
Context `{Builtins F}.
Implicit Types (acc data : dict (dict (option F))) (w : world F).

Lemma getitem_Ok {V} (d : dict V) k v : dict_get k d = Some v → getitem d k = Ok v.
Proof. unfold getitem. by intros ->. Qed.

(** [result[name] = {}] for a new name adds no measurement. *)
Lemma table_get_new_name acc name n' a' :
  table_get
    (if dict_mem name acc then acc else setitem name [] acc) n' a'
  = table_get acc n' a'.
Proof.
  rewrite dict_mem_get. case_bool_decide as Hname; [done|].
  apply eq_None_not_Some in Hname. unfold table_get.
  destruct (decide (name = n')) as [->|Hne].
  - by rewrite dict_get_setitem, Hname.
  - by rewrite dict_get_setitem_ne.
Qed.

Lemma dict_get_new_name acc name :
  is_Some (dict_get name (if dict_mem name acc then acc else setitem name [] acc)).
Proof.
  rewrite dict_mem_get. case_bool_decide as Hname; [done|].
  rewrite dict_get_setitem. by eexists.
Qed.

Lemma table_get_set acc name approach inner (v : option F) :
  table_get (setitem name (setitem approach v inner) acc) name approach = Some v.
Proof. unfold table_get. rewrite dict_get_setitem; simpl. apply dict_get_setitem. Qed.

Lemma table_get_set_ne acc name approach inner (v : option F) n' a' :
  dict_get name acc = Some inner → (n', a') ≠ (name, approach) →
  table_get (setitem name (setitem approach v inner) acc) n' a' = table_get acc n' a'.
Proof.
  intros Hinner Hne. unfold table_get.
  destruct (decide (name = n')) as [->|Hn].
  - rewrite dict_get_setitem, Hinner; simpl.
    apply dict_get_setitem_ne. congruence.
  - by rewrite dict_get_setitem_ne.
Qed.

Lemma getData_row_4 acc w name approach percent rest :
  getData_row [name; approach; percent; rest] acc w
  = match getitem (if dict_mem name acc then acc else setitem name [] acc) name with
    | Raise e => (Raise e, w)
    | Ok inner =>
        if dict_mem approach inner
        then (Raise (SystemExit 1), print_stderr (found_twice approach name) w)
        else if String.eqb percent ""
        then (Ok (setitem name (setitem approach None inner)
                    (if dict_mem name acc then acc else setitem name [] acc)), w)
        else match float percent with
             | None => (Raise (ValueError (could_not_convert percent)), w)
             | Some x =>
                 (Ok (setitem name (setitem approach (Some x) inner)
                        (if dict_mem name acc then acc else setitem name [] acc)), w)
             end
    end.
Proof. done. Qed.

(** A row whose pair is already in the table ends the run. *)
Lemma getData_row_twice acc w name approach percent rest :
  is_Some (table_get acc name approach) →
  getData_row [name; approach; percent; rest] acc w
  = (Raise (SystemExit 1), print_stderr (found_twice approach name) w).
Proof.
  intros Hin. rewrite getData_row_4.
  rewrite <-(table_get_new_name acc name) in Hin. unfold table_get in Hin.
  destruct (dict_get name _) as [inner|] eqn:Hinner; simpl in Hin; [|by destruct Hin].
  rewrite (getitem_Ok _ _ _ Hinner).
  rewrite dict_mem_get. by rewrite bool_decide_eq_true_2.
Qed.

(** A row with a new pair and a readable percent field is recorded. *)
Lemma getData_row_new acc w name approach percent rest v :
  table_get acc name approach = None → percent_value percent v →
  ∃ acc', getData_row [name; approach; percent; rest] acc w = (Ok acc', w)
    ∧ table_get acc' name approach = Some v
    ∧ ∀ n' a', (n', a') ≠ (name, approach) →
        table_get acc' n' a' = table_get acc n' a'.
Proof.
  intros Hnew Hv. rewrite getData_row_4.
  rewrite <-(table_get_new_name acc name) in Hnew.
  destruct (dict_get_new_name acc name) as [inner Hinner].
  rewrite (getitem_Ok _ _ _ Hinner).
  unfold table_get in Hnew. rewrite Hinner in Hnew; simpl in Hnew.
  rewrite dict_mem_get, Hnew.
  rewrite bool_decide_eq_false_2 by by intros [??].
  rewrite string_eqb_eq.
  destruct Hv as [[-> ->] | (Hp & x & Hx & ->)].
  - rewrite bool_decide_eq_true_2 by done. eexists; split_and!; [done|..].
    + apply table_get_set.
    + intros n' a' Hne. rewrite table_get_set_ne by done. apply table_get_new_name.
  - rewrite bool_decide_eq_false_2, Hx by done. eexists; split_and!; [done|..].
    + apply table_get_set.
    + intros n' a' Hne. rewrite table_get_set_ne by done. apply table_get_new_name.
Qed.

(** What a row that is accepted tells. *)
Lemma getData_row_Ok row acc w acc' w' :
  getData_row row acc w = (Ok acc', w') →
  ∃ name approach percent rest v,
    row = [name; approach; percent; rest] ∧ w' = w
    ∧ table_get acc name approach = None ∧ percent_value percent v
    ∧ table_get acc' name approach = Some v
    ∧ ∀ n' a', (n', a') ≠ (name, approach) →
        table_get acc' n' a' = table_get acc n' a'.
Proof.
  destruct row as [|name [|approach [|percent [|rest [|]]]]]; try done.
  destruct (table_get acc name approach) as [v0|] eqn:Hget.
  { rewrite getData_row_twice by by eexists. done. }
  intros Hrow. exists name, approach, percent, rest.
  assert (∃ v, percent_value percent v) as [v Hv].
  { unfold percent_value. destruct (decide (percent = "")) as [->|Hp]; [by eauto|].
    destruct (float percent) as [x|] eqn:Hx; [by eauto 6|].
    exfalso. revert Hrow. rewrite getData_row_4.
    destruct (getitem _ name); [|done].
    destruct (dict_mem approach _); [done|].
    rewrite string_eqb_eq, bool_decide_eq_false_2, Hx by done. done. }
  destruct (getData_row_new acc w name approach percent rest v Hget Hv)
    as (acc'' & Hrow' & ? & ?).
  rewrite Hrow' in Hrow. injection Hrow as <- <-. by exists v.
Qed.

Lemma getData_rows_world rows acc w data w' :
  getData_rows rows acc w = (Ok data, w') → w' = w.
Proof.
  revert acc w. induction rows as [|row rows IH]; intros acc w; simpl.
  - by intros [= _ <-].
  - destruct (getData_row row acc w) as [[acc1|e] w1] eqn:Hrow; [|done].
    apply getData_row_Ok in Hrow as (?&?&?&?&?&_&->&_). apply IH.
Qed.

(** Measurements, once recorded, stay; and every row is recorded. *)
Lemma getData_rows_Ok rows acc w data w' :
  getData_rows rows acc w = (Ok data, w') →
  (∀ n a v, table_get acc n a = Some v → table_get data n a = Some v)
  ∧ (∀ n a p r, [n; a; p; r] ∈ rows →
       ∃ v, percent_value p v ∧ table_get data n a = Some v).
Proof.
  revert acc w. induction rows as [|row rows IH]; intros acc w; simpl.
  - intros [= <- _]. split; [done|]. by intros ???? ?%elem_of_nil.
  - destruct (getData_row row acc w) as [[acc1|e] w1] eqn:Hrow; [|done].
    apply getData_row_Ok in Hrow
      as (name & approach & percent & rest & v & -> & -> & Hnew & Hv & Hget & Hframe).
    intros [Hkeep Hrows]%IH. split.
    + intros n a v' Hacc. apply Hkeep. rewrite Hframe; [done|]. congruence.
    + intros n a p r [Hhd|Htl]%elem_of_cons; [|by eauto].
      injection Hhd as -> -> -> ->. eauto.
Qed.

(** Every measurement of the table was in it at the start or comes from a
    row. *)
Lemma getData_rows_from rows acc w data w' n a v :
  getData_rows rows acc w = (Ok data, w') →
  table_get data n a = Some v →
  table_get acc n a = Some v
  ∨ ∃ p r, [n; a; p; r] ∈ rows ∧ percent_value p v.
Proof.
  revert acc w. induction rows as [|row rows IH]; intros acc w; simpl.
  - intros [= <- _]. by left.
  - destruct (getData_row row acc w) as [[acc1|e] w1] eqn:Hrow; [|done].
    apply getData_row_Ok in Hrow
      as (name & approach & percent & rest & v0 & -> & -> & Hnew & Hv & Hget & Hframe).
    intros Hrows Hdata. destruct (IH _ _ Hrows Hdata) as [Hacc1 | (p & r & Hin & Hp)].
    + destruct (decide ((n, a) = (name, approach))) as [[= -> ->]|Hne].
      * right. exists percent, rest. split; [left|]. congruence.
      * left. by rewrite <-Hframe.
    + right. exists p, r. split; [by right|done].
Qed.

End getData_facts.

Section getData_claims.
Context `{Builtins F}.
Implicit Types (acc data : dict (dict (option F))) (w : world F).

Lemma getData_header rows w : getData (header :: rows) w = getData_rows rows [] w.
Proof. done. Qed.

Lemma getData_Ok_header reader w data w' :
  getData reader w = (Ok data, w') →
  getData_rows (tail reader) [] w = (Ok data, w').
Proof.
  unfold getData. destruct reader as [|hd rows]; simpl; [done|].
  by case_decide.
Qed.

Lemma data_row_percent_value name approach percent rest :
  data_row [name; approach; percent; rest] → ∃ v, percent_value percent v.
Proof.
  intros (?&?&?&?& [= <- <- <- <-] & [-> | [x Hx]]); unfold percent_value.
  - eauto.
  - destruct (decide (percent = "")) as [->|]; eauto 6.
Qed.

Lemma twice_in_cons row rows n a : twice_in rows n a → twice_in (row :: rows) n a.
Proof.
  intros (i & j & p & r & p' & r' & Hij & Hi & Hj).
  exists (S i), (S j), p, r, p', r'. split_and!; [lia|done..].
Qed.

Lemma twice_in_head rows n a p r p' r' :
  [n; a; p'; r'] ∈ rows → twice_in ([n; a; p; r] :: rows) n a.
Proof.
  intros [j Hj]%list_elem_of_lookup.
  exists 0%nat, (S j), p, r, p', r'. split_and!; [lia|done..].
Qed.

Lemma twice_in_inv row rows n a :
  twice_in (row :: rows) n a →
  twice_in rows n a ∨ ∃ p r p' r', row = [n; a; p; r] ∧ [n; a; p'; r'] ∈ rows.
Proof.
  intros (i & j & p & r & p' & r' & Hij & Hi & Hj).
  destruct j as [|j]; [lia|]. simpl in Hj. destruct i as [|i]; simpl in Hi.
  - right. exists p, r, p', r'. split; [congruence|].
    apply list_elem_of_lookup. eauto.
  - left. exists i, j, p, r, p', r'. split_and!; [lia|done..].
Qed.

(** The loop stops at the first row that repeats a pair. *)
Lemma getData_rows_twice rows acc w :
  Forall data_row rows →
  (∃ n a, twice_in rows n a
          ∨ (is_Some (table_get acc n a) ∧ ∃ p r, [n; a; p; r] ∈ rows)) →
  ∃ n a, (twice_in rows n a
          ∨ (is_Some (table_get acc n a) ∧ ∃ p r, [n; a; p; r] ∈ rows))
    ∧ getData_rows rows acc w
      = (Raise (SystemExit 1), print_stderr (found_twice a n) w).
Proof.
  intros Hrows. revert acc.
  induction Hrows as [|row rows Hrow Hrows IH]; intros acc (n & a & Hdup).
  { destruct Hdup as [(i&j&?&?&?&?&_&Hi&_) | [_ (p & r & Hin)]]; [done|].
    by apply elem_of_nil in Hin. }
  pose proof Hrow as (n0 & a0 & p0 & r0 & -> & _).
  destruct (table_get acc n0 a0) as [v0|] eqn:Hget.
  { exists n0, a0. split.
    - right. split; [by eexists|]. exists p0, r0. left.
    - simpl. by rewrite getData_row_twice by by eexists. }
  destruct (data_row_percent_value _ _ _ _ Hrow) as [v Hv].
  destruct (getData_row_new acc w n0 a0 p0 r0 v Hget Hv) as (acc1 & Hstep & Hnew & Hframe).
  destruct (IH acc1) as (n' & a' & Hdup' & Hloop).
  { destruct Hdup as [[Htw | (p & r & p' & r' & Heq & Hin)]%twice_in_inv
                     | [Hacc (p & r & [Hhd|Htl]%elem_of_cons)]].
    - exists n, a. by left.
    - injection Heq as <- <- <- <-. exists n0, a0. right. split; [by eexists|eauto].
    - injection Hhd as -> -> -> ->. rewrite Hget in Hacc. by destruct Hacc.
    - exists n, a. right. split; [|eauto].
      rewrite Hframe; [done|]. intros [= -> ->]. rewrite Hget in Hacc. by destruct Hacc. }
  exists n', a'. split.
  - destruct Hdup' as [Htw | [Hacc1 (p & r & Hin)]].
    + left. by apply twice_in_cons.
    + destruct (decide ((n', a') = (n0, a0))) as [[= -> ->]|Hne].
      * left. by eapply twice_in_head.
      * right. rewrite <-Hframe by done. split; [done|]. exists p, r. by right.
  - simpl. by rewrite Hstep.
Qed.

(** The loader accepts rows that are well formed and repeat no pair. *)
Lemma getData_rows_total rows acc w :
  Forall data_row rows →
  (∀ n a, ¬ twice_in rows n a) →
  (∀ n a p r, [n; a; p; r] ∈ rows → table_get acc n a = None) →
  ∃ data, getData_rows rows acc w = (Ok data, w).
Proof.
  intros Hrows. revert acc.
  induction Hrows as [|row rows Hrow Hrows IH]; intros acc Hnodup Hnew; simpl.
  { by eexists. }
  pose proof Hrow as (n0 & a0 & p0 & r0 & -> & _).
  destruct (data_row_percent_value _ _ _ _ Hrow) as [v Hv].
  destruct (getData_row_new acc w n0 a0 p0 r0 v) as (acc1 & -> & Hget & Hframe);
    [by eapply Hnew; left|done|].
  apply IH.
  - intros n a Htw. by eapply Hnodup, twice_in_cons.
  - intros n a p r Hin. rewrite Hframe; [by eapply Hnew; right|].
    intros [= -> ->]. by eapply Hnodup, twice_in_head.
Qed.

End getData_claims.

Lemma append_assoc (s1 s2 s3 : str) : (s1 +:+ s2) +:+ s3 = s1 +:+ s2 +:+ s3.
Proof. induction s1 as [|c s1 IH]; [done|]. by rewrite !append_cons, IH. Qed.

(** A string of printable characters without quotes or backslash: [repr]
    puts it between single quotes as it is. *)
Lemma repr_plain (s : str) : plain s = true → repr s = "'" +:+ s +:+ "'".
Proof.
  intros Hplain.
  assert (has_char squote s = false ∧ repr_chars squote s = s) as [Hquote Hchars].
  { induction s as [|c s IH]; [done|]. cbn [plain has_char repr_chars] in *.
    apply andb_prop in Hplain as [Hc Hs]. destruct (IH Hs) as [-> ->].
    unfold plain_char in Hc. repeat (apply andb_prop in Hc as [Hc ?]).
    apply negb_true_iff in H0, H1, H. rewrite H1. split; [done|].
    unfold repr_char. rewrite H1, H; cbn [orb].
    assert (32 ≤ code c)%N as Hcode.
    { pose proof Hc as Hc'. unfold isprintable in Hc'.
      rewrite !orb_true_iff, !andb_true_iff, !N.leb_le in Hc'. lia. }
    destruct (N.eqb_spec (code c) 9); [lia|]. destruct (N.eqb_spec (code c) 10); [lia|].
    destruct (N.eqb_spec (code c) 13); [lia|]. rewrite Hc. by rewrite append_cons. }
  unfold repr. rewrite Hquote; cbn [andb]. fold squote.
  rewrite Hchars. done.
Qed.

Lemma getData_rows_Raise_app `{Builtins F} (pre post : list (list str))
    (acc : table) (w w' : world F) e :
  getData_rows pre acc w = (Raise e, w') →
  getData_rows (pre ++ post) acc w = (Raise e, w').
Proof.
  revert acc w. induction pre as [|row pre IH]; intros acc w; simpl; [done|].
  destruct (getData_row row acc w) as [[acc1|e1] w1]; [apply IH|done].
Qed.

(** C4.  When some (mutation, approach) pair appears in two data rows, and
    the rows up to the repeated one are well formed, the run ends in
    [sys.exit(1)] whatever rows follow: the exit status is 1, no file is
    written, and the one line written to standard error reads
    [Approach name <repr of the approach> found twice for <repr of the
    mutation>.] for a pair that appears twice; names of printable characters
    without quotes or backslash stand in the line as they are, between
    single quotes. *)
Theorem main_duplicate_pair `{Builtins F} (rows rest : list (list str)) (output : str)
    (w : world F) (name approach : str) :
  Forall data_row rows →
  twice_in rows name approach →
  ∃ name' approach',
    twice_in rows name' approach'
    ∧ (main (header :: rows ++ rest) output w).1 = Raise (SystemExit 1)
    ∧ exit_status (main (header :: rows ++ rest) output w).1 = 1
    ∧ stderr (main (header :: rows ++ rest) output w).2
      = stderr w
        ++ ["Approach name " +:+ repr approach' +:+ " found twice for "
            +:+ repr name' +:+ "."]
    ∧ (plain approach' = true → plain name' = true →
       stderr (main (header :: rows ++ rest) output w).2
       = stderr w
         ++ ["Approach name '" +:+ approach' +:+ "' found twice for '"
             +:+ name' +:+ "'."])
    ∧ files (main (header :: rows ++ rest) output w).2 = files w.
Proof.
  intros Hrows Htwice.
  destruct (getData_rows_twice rows [] w Hrows) as (n & a & Hdup & Hloop).
  { exists name, approach. by left. }
  assert (main (header :: rows ++ rest) output w
          = (Raise (SystemExit 1), print_stderr (found_twice a n) w)) as Hmain.
  { unfold main. by rewrite getData_header, (getData_rows_Raise_app _ _ _ _ _ _ Hloop). }
  exists n, a. rewrite Hmain. split_and!; try done.
  - destruct Hdup as [?|[[? Hacc] _]]; [done|]. done.
  - intros Ha Hn. cbn [snd print_stderr stderr]. unfold found_twice.
    rewrite (repr_plain a Ha), (repr_plain n Hn). do 2 f_equal.
    by rewrite !append_assoc.
Qed.

Lemma main_duplicate_pair_witness :
  (∃ name' approach',
     twice_in [["ORF1:Y2435K"; "Serum native"; "1"; "99"];
               ["ORF1:Y2435K"; "Serum native"; "2"; "98"]] name' approach'
     ∧ (main (header :: [["ORF1:Y2435K"; "Serum native"; "1"; "99"];
                         ["ORF1:Y2435K"; "Serum native"; "2"; "98"]]
                ++ [["ORF2:C100D"; "Serum cap"]])
          "out.png" empty_world).1 = Raise (SystemExit 1)
     ∧ exit_status
         (main (header :: [["ORF1:Y2435K"; "Serum native"; "1"; "99"];
                           ["ORF1:Y2435K"; "Serum native"; "2"; "98"]]
                  ++ [["ORF2:C100D"; "Serum cap"]])
            "out.png" empty_world).1 = 1
     ∧ stderr
         (main (header :: [["ORF1:Y2435K"; "Serum native"; "1"; "99"];
                           ["ORF1:Y2435K"; "Serum native"; "2"; "98"]]
                  ++ [["ORF2:C100D"; "Serum cap"]])
            "out.png" empty_world).2
       = stderr empty_world
         ++ ["Approach name " +:+ repr approach' +:+ " found twice for "
             +:+ repr name' +:+ "."]
     ∧ (plain approach' = true → plain name' = true →
        stderr
          (main (header :: [["ORF1:Y2435K"; "Serum native"; "1"; "99"];
                            ["ORF1:Y2435K"; "Serum native"; "2"; "98"]]
                   ++ [["ORF2:C100D"; "Serum cap"]])
             "out.png" empty_world).2
        = stderr empty_world
          ++ ["Approach name '" +:+ approach' +:+ "' found twice for '"
              +:+ name' +:+ "'."])
     ∧ files
         (main (header :: [["ORF1:Y2435K"; "Serum native"; "1"; "99"];
                           ["ORF1:Y2435K"; "Serum native"; "2"; "98"]]
                  ++ [["ORF2:C100D"; "Serum cap"]])
            "out.png" empty_world).2 = files empty_world)
  ∧ stderr
      (main (header :: [["ORF1:Y2435K"; "Serum native"; "1"; "99"];
                        ["ORF1:Y2435K"; "Serum native"; "2"; "98"]]
               ++ [["ORF2:C100D"; "Serum cap"]])
         "out.png" empty_world).2
    = ["Approach name 'Serum native' found twice for 'ORF1:Y2435K'."].
Proof.
  split; [|reflexivity].
  apply (main_duplicate_pair _ [["ORF2:C100D"; "Serum cap"]] "out.png" empty_world
           "ORF1:Y2435K" "Serum native").
  - repeat constructor.
    + exists "ORF1:Y2435K", "Serum native", "1", "99".
      split; [reflexivity | right; by eexists].
    + exists "ORF1:Y2435K", "Serum native", "2", "98".
      split; [reflexivity | right; by eexists].
  - exists 0%nat, 1%nat, "1", "99", "2", "98". split_and!; [lia | reflexivity..].
Defined.

(** C5.  After a successful load, the table holds at
    [table[mutation][approach]] the number that [float] reads from the
    percent field of each data row, and the null marker, not a number, for a
    row whose percent field is empty. *)
Theorem getData_round_trip `{Builtins F} (reader : list (list str)) (w w' : world F)
    (data : table) (name approach percent rest : str) :
  getData reader w = (Ok data, w') →
  [name; approach; percent; rest] ∈ tail reader →
  (percent ≠ "" →
     ∃ x, float percent = Some x ∧ table_get data name approach = Some (Some x))
  ∧ (percent = "" →
     table_get data name approach = Some None
     ∧ ∀ zero : F, table_get data name approach ≠ Some (Some zero)).
Proof.
  intros Hload%getData_Ok_header Hrow.
  destruct (getData_rows_Ok _ _ _ _ _ Hload) as [_ Hrows].
  destruct (Hrows _ _ _ _ Hrow) as (v & [[-> ->] | (Hp & x & Hx & ->)] & Hget).
  - split; [done|]. intros _. split; [done|]. intros zero. by rewrite Hget.
  - split; [|done]. intros _. by exists x.
Qed.

Lemma getData_round_trip_witness :
  ("12.5" ≠ "" →
     ∃ x, float "12.5" = Some x
          ∧ table_get example_table "ORF10:A12T" "Serum native" = Some (Some x))
  ∧ ("12.5" = "" →
     table_get example_table "ORF10:A12T" "Serum native" = Some None
     ∧ ∀ zero : Q, table_get example_table "ORF10:A12T" "Serum native" ≠ Some (Some zero)).
Proof.
  apply (getData_round_trip example_rows empty_world empty_world example_table
           "ORF10:A12T" "Serum native" "12.5" "87.5").
  - reflexivity.
  - simpl. apply list_elem_of_here.
Defined.

(** C9, as the specification has it, fails: the loader checks no range, and
    a percent field [150] is stored as the number 150. *)
Lemma getData_percent_out_of_range :
  ∃ data,
    getData [header; ["ORF1:Y2435K"; "Serum native"; "150"; ""]] empty_world
    = (Ok data, empty_world)
    ∧ table_get data "ORF1:Y2435K" "Serum native" = Some (Some 150%Q)
    ∧ ¬ (0 <= 150 <= 100)%Q.
Proof.
  eexists. split_and!; [reflexivity..|].
  intros [_ Hle]. by apply Qle_bool_iff in Hle.
Qed.

(** C9, as the code has it.  Every number in the loaded table is what
    [float] returned for the non-empty percent field of a data row with that
    mutation and approach; the loader stores it as it is. *)
Theorem getData_percent_from_row `{Builtins F} (reader : list (list str))
    (w w' : world F) (data : table) (name approach : str) (x : F) :
  getData reader w = (Ok data, w') →
  table_get data name approach = Some (Some x) →
  ∃ percent rest,
    [name; approach; percent; rest] ∈ tail reader
    ∧ percent ≠ "" ∧ float percent = Some x.
Proof.
  intros Hload%getData_Ok_header Hget.
  destruct (getData_rows_from _ _ _ _ _ _ _ _ Hload Hget)
    as [Hacc | (p & r & Hin & [[_ ?] | (Hp & x' & Hx & [= <-])])]; [done..|].
  by exists p, r.
Qed.

Lemma getData_percent_from_row_witness :
  ∃ percent rest,
    [ "ORF2:B100C"; "Serum cap"; percent; rest] ∈ tail example_rows
    ∧ percent ≠ "" ∧ float percent = Some 2%Q.
Proof.
  apply (getData_percent_from_row example_rows empty_world empty_world example_table);
    reflexivity.
Defined.

(** ** The consistency check *)

Section checkApproachNames_facts.
Context `{Builtins F}.
Implicit Types (data : dict (dict (option F))).

Lemma set_eqb_true (s1 s2 : pyset) :
  set_eqb s1 s2 = true ↔ ∀ x, x ∈ s1 ↔ x ∈ s2.
Proof.
  unfold set_eqb. rewrite andb_true_iff, !forallb_forall.
  setoid_rewrite bool_decide_eq_true. setoid_rewrite <-list_elem_of_In.
  split.
  - intros [H12 H21] x. split; auto.
  - intros Heq. split; intros x; apply Heq.
Qed.

Lemma set_of_elem {V} (d : dict V) x : x ∈ set_of d ↔ x ∈ keys d.
Proof. apply set_iter_elem. Qed.

Lemma set_of_eqb {V} (d1 d2 : dict V) :
  set_eqb (set_of d1) (set_of d2) = true ↔ ∀ x, x ∈ keys d1 ↔ x ∈ keys d2.
Proof. rewrite set_eqb_true. by setoid_rewrite set_of_elem. Qed.

(** The passes after the first one. *)
Lemma checkApproachNames_rest data names approaches :
  (∀ name, name ∈ names → is_Some (dict_get name data)) →
  for_each (checkApproachNames_step data) names (false, Some approaches)
  = if forallb (same_names data approaches) names
    then Ok (false, Some approaches) else Raise AssertionError.
Proof.
  induction names as [|name names IH]; intros Hkeys; simpl; [done|].
  destruct (Hkeys name) as [inner Hinner]; [left|].
  unfold getitem, same_names at 1. rewrite Hinner; simpl.
  destruct (set_eqb (set_of inner) approaches) eqn:Heq; simpl; [|done].
  apply IH. intros; apply Hkeys; by right.
Qed.

Lemma checkApproachNames_cons name0 inner0 (rest : dict (dict (option F))) :
  checkApproachNames ((name0, inner0) :: rest)
  = if forallb (same_names ((name0, inner0) :: rest) (set_of inner0)) (keys rest)
    then Ok (set_of inner0) else Raise AssertionError.
Proof.
  unfold checkApproachNames.
  change (keys ((name0, inner0) :: rest)) with (name0 :: keys rest).
  cbn [for_each]. unfold checkApproachNames_step at 2. unfold getitem at 1.
  cbn [dict_get]. rewrite String.eqb_refl. cbn.
  rewrite checkApproachNames_rest.
  - by destruct (forallb _ _).
  - intros name Hname. apply dict_get_keys. by right.
Qed.

(** A consistent table: it has a first mutation, and every mutation has the
    approach names of the first one. *)
Lemma checkApproachNames_Ok data approaches :
  checkApproachNames data = Ok approaches ↔
  ∃ name0 inner0 rest,
    data = (name0, inner0) :: rest ∧ approaches = set_of inner0
    ∧ ∀ name, name ∈ keys data →
        ∃ inner, dict_get name data = Some inner
                 ∧ ∀ a, a ∈ keys inner ↔ a ∈ keys inner0.
Proof.
  destruct data as [|[name0 inner0] rest].
  { split; [done|]. by intros (?&?&?&?&_). }
  rewrite checkApproachNames_cons. split.
  - destruct (forallb _ _) eqn:Hall; [|done]. intros [= <-].
    exists name0, inner0, rest. split_and!; [done..|].
    intros name [->|Hname]%elem_of_cons.
    + exists inner0. simpl. by rewrite String.eqb_refl.
    + rewrite forallb_forall in Hall. apply list_elem_of_In, Hall in Hname.
      unfold same_names in Hname.
      destruct (dict_get name _) as [inner|]; [|done].
      exists inner. split; [done|]. by apply set_of_eqb.
  - intros (n & i & r & [= <- <- <-] & -> & Hall).
    rewrite (proj2 (forallb_forall _ _)); [done|].
    intros name Hname%list_elem_of_In. unfold same_names.
    destruct (Hall name) as (inner & -> & Heq); [by right|].
    by apply set_of_eqb.
Qed.

(** An inconsistent table fails the assertion. *)
Lemma checkApproachNames_mismatch name0 inner0 (rest : dict (dict (option F))) name inner :
  name ∈ keys rest →
  dict_get name ((name0, inner0) :: rest) = Some inner →
  ¬ (∀ a, a ∈ keys inner ↔ a ∈ keys inner0) →
  checkApproachNames ((name0, inner0) :: rest) = Raise AssertionError.
Proof.
  intros Hname Hinner Hne. rewrite checkApproachNames_cons.
  destruct (forallb _ _) eqn:Hall; [|done].
  rewrite forallb_forall in Hall. apply list_elem_of_In, Hall in Hname.
  unfold same_names in Hname. rewrite Hinner, set_of_eqb in Hname. done.
Qed.

End checkApproachNames_facts.

(** C3.  [checkApproachNames] returns a set exactly when the table has a
    first mutation and every mutation has the same approach names as that
    one, and the set it returns is the set of these names.  When some
    mutation differs from the first, the check raises [AssertionError], and
    [makePlot] ends with that error before it draws or writes anything. *)
Theorem checkApproachNames_consistent `{Builtins F} (data : table) :
  (∀ approaches,
     checkApproachNames data = Ok approaches ↔
     ∃ name0 inner0 rest,
       data = (name0, inner0) :: rest ∧ approaches = set_of inner0
       ∧ ∀ name, name ∈ keys data →
           ∃ inner, dict_get name data = Some inner
                    ∧ ∀ a, a ∈ keys inner ↔ a ∈ keys inner0)
  ∧ (∀ name0 inner0 rest name inner (output : str) (w : world F),
       data = (name0, inner0) :: rest →
       name ∈ keys data → dict_get name data = Some inner →
       ¬ (∀ a, a ∈ keys inner ↔ a ∈ keys inner0) →
       checkApproachNames data = Raise AssertionError
       ∧ makePlot data output w = (Raise AssertionError, w)).
Proof.
  split; [apply checkApproachNames_Ok|].
  intros name0 inner0 rest name inner output w -> Hname Hinner Hne.
  assert (checkApproachNames ((name0, inner0) :: rest) = Raise AssertionError) as Hcheck.
  { apply elem_of_cons in Hname as [->|Hname].
    - simpl in Hinner. rewrite String.eqb_refl in Hinner. by injection Hinner as <-.
    - by eapply checkApproachNames_mismatch. }
  split; [done|]. unfold makePlot, makePlot_draw. by rewrite Hcheck.
Qed.

(** C10.  On the empty table [checkApproachNames] fails with
    [UnboundLocalError] for [approaches]; it does not return the empty set,
    and the empty table is the only one on which it fails this way.
    [makePlot] on the empty table, and the whole program on a file with the
    header row only, end with that error and write nothing. *)
Theorem checkApproachNames_empty `{Builtins F} (output : str) (w : world F) :
  checkApproachNames (F:=F) [] = Raise (UnboundLocalError "approaches")
  ∧ checkApproachNames (F:=F) [] ≠ Ok []
  ∧ (∀ data : table,
       checkApproachNames data = Raise (UnboundLocalError "approaches") ↔ data = [])
  ∧ makePlot [] output w = (Raise (UnboundLocalError "approaches"), w)
  ∧ main [header] output w = (Raise (UnboundLocalError "approaches"), w).
Proof.
  split_and!; try done.
  intros [|[name0 inner0] rest]; [done|].
  rewrite checkApproachNames_cons. split; [|done]. by destruct (forallb _ _).
Qed.

(** ** Drawing *)

Section makePlot_facts.
Context `{Builtins F}.
Implicit Types (data : dict (dict (option F))) (fig : figure F) (ax cell : Axes F).

(** [plotPie] adds the calls of the panel, unless [ax.pie] refuses the
    slices. *)
Lemma plotPie_calls percent ax row col approach name :
  plotPie percent ax row col approach name
  = if pie_ok percent then Ok (ax ++ panel_calls row col approach name percent)
    else Raise (ValueError bad_wedge_sizes).
Proof.
  unfold plotPie, panel_calls, panel_labels, panel_drawing, pie_ok.
  destruct percent as [p|]; cbn [fst snd].
  - destruct (pie_accepts p (fsub hundred p)); [|done].
    repeat case_decide; by rewrite <-?app_assoc.
  - repeat case_decide; by rewrite <-?app_assoc.
Qed.

(** Replacing one panel of the grid leaves the others as they are. *)
Lemma panel_at_insert fig row col axrow cell cell' :
  fig !! row = Some axrow → axrow !! col = Some cell →
  panel_at (<[row := <[col := cell']> axrow]> fig) row col = Some cell'
  ∧ (∀ r c, (r, c) ≠ (row, col) →
       panel_at (<[row := <[col := cell']> axrow]> fig) r c = panel_at fig r c)
  ∧ length <$> <[row := <[col := cell']> axrow]> fig = length <$> fig.
Proof.
  intros Hrow Hcol. unfold panel_at.
  pose proof (lookup_lt_Some _ _ _ Hrow) as Hr.
  pose proof (lookup_lt_Some _ _ _ Hcol) as Hc.
  split_and!.
  - rewrite list_lookup_insert_eq by done; csimpl.
    by rewrite list_lookup_insert_eq.
  - intros r c Hne. destruct (decide (r = row)) as [->|Hr'].
    + rewrite list_lookup_insert_eq, Hrow by done; csimpl.
      rewrite list_lookup_insert_ne; [done|]. congruence.
    + by rewrite list_lookup_insert_ne.
  - rewrite list_fmap_insert, length_insert. apply list_insert_id.
    by rewrite list_lookup_fmap, Hrow.
Qed.

Lemma table_get_getitem data name approach percent :
  table_get data name approach = Some percent →
  ∃ inner, getitem data name = Ok inner ∧ getitem inner approach = Ok percent.
Proof.
  unfold table_get. destruct (dict_get name data) as [inner|] eqn:Hinner; [|done]; simpl.
  intros Hpercent. exists inner. split; by apply getitem_Ok.
Qed.

(** One pass of the inner loop: it stops when [ax.pie] refuses the slices,
    and draws the panel at the next coordinate otherwise. *)
Lemma makePlot_panel_cases data approach name row col coords fig percent cell :
  table_get data name approach = Some percent →
  panel_at fig row col = Some cell →
  (pie_ok percent = false →
     makePlot_panel data approach ((row, col) :: coords, fig) name
     = Raise (ValueError bad_wedge_sizes))
  ∧ (pie_ok percent = true →
     ∃ fig',
       makePlot_panel data approach ((row, col) :: coords, fig) name = Ok (coords, fig')
       ∧ panel_at fig' row col
         = Some (cell ++ panel_calls row col approach name percent)
       ∧ (∀ r c, (r, c) ≠ (row, col) → panel_at fig' r c = panel_at fig r c)
       ∧ length <$> fig' = length <$> fig).
Proof.
  intros (inner & Hinner & Hpercent)%table_get_getitem Hcell.
  unfold panel_at in Hcell.
  destruct (fig !! row) as [axrow|] eqn:Hrow; [|done]; simpl in Hcell.
  assert (∀ k : Axes F → outcome (list (nat * nat) * figure F),
            makePlot_panel data approach ((row, col) :: coords, fig) name
            = plotPie percent cell row col approach name
              ≫= λ panel, Ok (coords, <[row := <[col := panel]> axrow]> fig))
    as Hstep.
  { intros _. unfold makePlot_panel; simpl. rewrite Hinner; simpl.
    rewrite Hpercent; simpl. unfold index. rewrite Hrow; simpl.
    by rewrite Hcell. }
  rewrite (Hstep (λ _, Raise StopIteration)), plotPie_calls. split; intros ->.
  - done.
  - eexists. split; [done|]. by apply (panel_at_insert _ _ _ _ cell).
Qed.

(** A pass that succeeds has changed the panel at the coordinate it took
    from the iterator, and no other. *)
Lemma makePlot_panel_frame data approach name coords fig coords' fig' :
  makePlot_panel data approach (coords, fig) name = Ok (coords', fig') →
  ∃ row col, coords = (row, col) :: coords'
    ∧ ∀ r c, (r, c) ≠ (row, col) → panel_at fig' r c = panel_at fig r c.
Proof.
  unfold makePlot_panel. destruct coords as [|[row col] coords]; [done|]; simpl.
  destruct (getitem data name) as [inner|]; [|done]; simpl.
  destruct (getitem inner approach) as [percent|]; [|done]; simpl.
  unfold index. destruct (fig !! row) as [axrow|] eqn:Hrow; [|done]; simpl.
  destruct (axrow !! col) as [cell|] eqn:Hcol; [|done]; simpl.
  destruct (plotPie percent cell row col approach name) as [panel|]; [|done]; simpl.
  intros [= <- <-]. exists row, col. split; [done|].
  by apply (panel_at_insert _ _ _ _ cell).
Qed.

End makePlot_facts.

Section makePlot_loops.
Context `{Builtins F}.
Implicit Types (data : dict (dict (option F))) (fig : figure F).

(** The inner loop, from column [j] of row [i] on: it stops at a measurement
    whose slices [ax.pie] refuses; otherwise it takes the coordinates of the
    row in order and draws each name of [names] into its panel. *)
Lemma makePlot_names_loop data approach i names j rest fig :
  (∀ name, name ∈ names → is_Some (table_get data name approach)) →
  (∀ c, (j ≤ c < j + length names)%nat → is_Some (panel_at fig i c)) →
  (forallb (cell_ok data approach) names = false →
     for_each (makePlot_panel data approach) names
       ((pair i <$> seq j (length names)) ++ rest, fig)
     = Raise (ValueError bad_wedge_sizes))
  ∧ (forallb (cell_ok data approach) names = true →
     ∃ fig',
       for_each (makePlot_panel data approach) names
         ((pair i <$> seq j (length names)) ++ rest, fig) = Ok (rest, fig')
       ∧ (∀ k name, names !! k = Some name →
            ∃ percent cell,
              table_get data name approach = Some percent
              ∧ panel_at fig i (j + k) = Some cell
              ∧ panel_at fig' i (j + k)
                = Some (cell ++ panel_calls i (j + k) approach name percent))
       ∧ (∀ r c, r ≠ i ∨ (c < j)%nat ∨ (j + length names ≤ c)%nat →
            panel_at fig' r c = panel_at fig r c)
       ∧ length <$> fig' = length <$> fig).
Proof.
  revert j fig. induction names as [|name names IH]; intros j fig Hdata Hfig.
  { split; [done|]. intros _. exists fig. split_and!; [done| |done..].
    by intros k name ?. }
  destruct (Hdata name) as [percent Hp]; [left|].
  destruct (Hfig j) as [cell Hcell]; [simpl; lia|].
  destruct (makePlot_panel_cases data approach name i j
              ((pair i <$> seq (S j) (length names)) ++ rest) fig percent cell Hp Hcell)
    as [Hrefused Hdrawn].
  cbn [forallb for_each length seq fmap list_fmap app].
  unfold cell_ok at 1 3. rewrite Hp.
  destruct (pie_ok percent); cbn [andb].
  2: { split; [|done]. intros _. by rewrite Hrefused. }
  destruct Hdrawn as (fig1 & Hstep & Hnew & Hframe & Hshape); [done|].
  rewrite Hstep. cbn [mbind outcome_bind].
  destruct (IH (S j) fig1) as [IHrefused IHdrawn].
  { intros n Hn. apply Hdata. by right. }
  { intros c Hc. rewrite Hframe; [apply Hfig; simpl; lia|]. intros [= ->]. lia. }
  split; [done|]. intros Hok.
  destruct (IHdrawn Hok) as (fig' & Hloop & Hcells & Hframe' & Hshape').
  exists fig'. split_and!.
  - exact Hloop.
  - intros [|k] name' Hk; simpl in Hk.
    + injection Hk as <-. exists percent, cell. rewrite Nat.add_0_r.
      split_and!; [done..|]. rewrite Hframe' by lia. done.
    + destruct (Hcells k name' Hk) as (percent' & cell' & ? & Hc1 & Hc2).
      exists percent', cell'. replace (j + S k)%nat with (S j + k)%nat by lia.
      split_and!; [done| |done]. rewrite <-Hframe; [done|]. intros [= ?]. lia.
  - intros r c Hrc. simpl in Hrc. rewrite Hframe' by lia. apply Hframe.
    intros [= -> ->]. lia.
  - by rewrite Hshape'.
Qed.

Lemma makePlot_row_sorted data sortedNames st approach :
  sorted columnKey_lt columnKey (keys data) = Ok sortedNames →
  makePlot_row data st approach
  = for_each (makePlot_panel data approach) sortedNames st.
Proof. unfold makePlot_row. by intros ->. Qed.

(** The outer loop, from row [i] on. *)
Lemma makePlot_rows_loop data sortedNames approaches i fig :
  sorted columnKey_lt columnKey (keys data) = Ok sortedNames →
  (∀ approach name, approach ∈ approaches → name ∈ sortedNames →
     is_Some (table_get data name approach)) →
  (∀ r c, (i ≤ r < i + length approaches)%nat → (c < length sortedNames)%nat →
     is_Some (panel_at fig r c)) →
  (forallb (λ approach, forallb (cell_ok data approach) sortedNames) approaches
   = false →
     approaches ≠ []
     ∧ for_each (makePlot_row data) approaches
         (row ← seq i (length approaches); pair row <$> seq 0 (length sortedNames),
          fig)
       = Raise (ValueError bad_wedge_sizes))
  ∧ (forallb (λ approach, forallb (cell_ok data approach) sortedNames) approaches
     = true →
     ∃ fig',
       for_each (makePlot_row data) approaches
         (row ← seq i (length approaches); pair row <$> seq 0 (length sortedNames),
          fig)
       = Ok ([], fig')
       ∧ (∀ k approach c name,
            approaches !! k = Some approach → sortedNames !! c = Some name →
            ∃ percent cell,
              table_get data name approach = Some percent
              ∧ panel_at fig (i + k) c = Some cell
              ∧ panel_at fig' (i + k) c
                = Some (cell ++ panel_calls (i + k) c approach name percent))
       ∧ (∀ r c, (r < i)%nat ∨ (i + length approaches ≤ r)%nat
                 ∨ (length sortedNames ≤ c)%nat →
            panel_at fig' r c = panel_at fig r c)
       ∧ length <$> fig' = length <$> fig).
Proof.
  intros Hsorted. revert i fig.
  induction approaches as [|approach approaches IH]; intros i fig Hdata Hfig.
  { split; [done|]. intros _. exists fig. split_and!; [done| |done..].
    by intros k approach c name ?. }
  destruct (makePlot_names_loop data approach i sortedNames 0
              (row ← seq (S i) (length approaches);
               pair row <$> seq 0 (length sortedNames)) fig)
    as [Hrefused Hdrawn].
  { intros name Hname. apply Hdata; [left|done]. }
  { intros c Hc. apply Hfig; simpl; lia. }
  cbn [forallb for_each length seq mbind list_bind].
  rewrite !(makePlot_row_sorted _ _ _ _ Hsorted).
  destruct (forallb (cell_ok data approach) sortedNames); cbn [andb].
  2: { split; [|done]. intros _. split; [done|]. by rewrite Hrefused. }
  destruct Hdrawn as (fig1 & Hrow & Hcells & Hframe & Hshape); [done|].
  rewrite Hrow. cbn [mbind outcome_bind].
  destruct (IH (S i) fig1) as [IHrefused IHdrawn].
  { intros a n Ha Hn. apply Hdata; [by right|done]. }
  { intros r c Hr Hc. rewrite Hframe by lia. apply Hfig; simpl; lia. }
  split.
  { intros Hbad. split; [done|]. by destruct (IHrefused Hbad). }
  intros Hok. destruct (IHdrawn Hok) as (fig' & Hloop & Hcells' & Hframe' & Hshape').
  exists fig'. split_and!.
  - exact Hloop.
  - intros [|k] a c name Hk Hc; simpl in Hk.
    + injection Hk as <-. rewrite Nat.add_0_r.
      destruct (Hcells c name Hc) as (percent & cell & Hp & Hc1 & Hc2).
      exists percent, cell. split_and!; [done..|]. rewrite Hframe' by lia. done.
    + destruct (Hcells' k a c name Hk Hc) as (percent & cell & Hp & Hc1 & Hc2).
      exists percent, cell. replace (i + S k)%nat with (S i + k)%nat by lia.
      split_and!; [done| |done]. rewrite <-Hframe by lia. done.
  - intros r c Hrc. simpl in Hrc. rewrite Hframe' by lia. apply Hframe. lia.
  - by rewrite Hshape'.
Qed.

Lemma panel_at_replicate rows cols (cell : Axes F) r c :
  (r < rows)%nat → (c < cols)%nat →
  panel_at (replicate rows (replicate cols cell)) r c = Some cell.
Proof.
  intros Hr Hc. unfold panel_at.
  rewrite lookup_replicate_2 by done; simpl. by rewrite lookup_replicate_2.
Qed.

End makePlot_loops.

Section makePlot_draw_facts.
Context `{Builtins F}.
Implicit Types (data : dict (dict (option F))) (fig : figure F).

Lemma table_pies_ok_forallb data (sortedApproaches sortedNames : list str) :
  table_pies_ok data →
  forallb (λ approach, forallb (cell_ok data approach) sortedNames) sortedApproaches
  = true.
Proof.
  intros Hok. apply forallb_forall. intros approach _.
  apply forallb_forall. intros name _. unfold cell_ok.
  destruct (table_get data name approach) as [[p|]|] eqn:Hget; [|done..].
  by eapply Hok.
Qed.

(** The loops of [makePlot] on a table that the check accepts. *)
Lemma makePlot_loops_cases data approaches sortedApproaches sortedNames :
  checkApproachNames data = Ok approaches →
  sorted rowKey_lt rowKey approaches = Ok sortedApproaches →
  sorted columnKey_lt columnKey (keys data) = Ok sortedNames →
  (forallb (λ approach, forallb (cell_ok data approach) sortedNames)
     sortedApproaches = false →
     approaches ≠ []
     ∧ for_each (makePlot_row data) sortedApproaches
         (dimensionalIterator (length approaches) (length data),
          replicate (length approaches) (replicate (length data) []))
       = Raise (ValueError bad_wedge_sizes))
  ∧ (forallb (λ approach, forallb (cell_ok data approach) sortedNames)
       sortedApproaches = true →
     ∃ fig,
       for_each (makePlot_row data) sortedApproaches
         (dimensionalIterator (length approaches) (length data),
          replicate (length approaches) (replicate (length data) []))
       = Ok ([], fig)
       ∧ length fig = length approaches
       ∧ Forall (λ axrow, length axrow = length data) fig
       ∧ ∀ i j approach name,
           sortedApproaches !! i = Some approach → sortedNames !! j = Some name →
           ∃ percent,
             table_get data name approach = Some percent
             ∧ panel_at fig i j = Some (panel_calls i j approach name percent)).
Proof.
  intros Hcheck HsortedA HsortedN.
  pose proof Hcheck as (name0 & inner0 & rest & Hdata & Happroaches & Hsame)%checkApproachNames_Ok.
  destruct (sorted_Ok _ _ _ _ HsortedA) as [HpermA _].
  destruct (sorted_Ok _ _ _ _ HsortedN) as [HpermN _].
  assert (length sortedApproaches = length approaches) as HlenA by by rewrite HpermA.
  assert (length sortedNames = length data) as HlenN.
  { rewrite HpermN. unfold keys. by rewrite length_fmap. }
  destruct (makePlot_rows_loop data sortedNames sortedApproaches 0
              (replicate (length approaches) (replicate (length data) [])) HsortedN)
    as [Hrefused Hdrawn].
  { intros approach name Ha Hn. rewrite HpermA, Happroaches in Ha.
    apply set_of_elem in Ha. rewrite HpermN in Hn.
    destruct (Hsame name Hn) as (inner & Hinner & Hkeys).
    unfold table_get. rewrite Hinner; simpl. by apply dict_get_keys, Hkeys. }
  { intros r c Hr Hc. rewrite panel_at_replicate by lia. by eexists. }
  rewrite HlenA, HlenN in Hrefused, Hdrawn. split.
  - intros Hbad. destruct (Hrefused Hbad) as [Hne Hloop]. split; [|exact Hloop].
    intros ->. apply Permutation_nil_r in HpermA. congruence.
  - intros Hok. destruct (Hdrawn Hok) as (fig & Hloop & Hcells & _ & Hshape).
    exists fig. split_and!.
    + exact Hloop.
    + apply (f_equal length) in Hshape.
      by rewrite !length_fmap, length_replicate in Hshape.
    + apply Forall_forall. intros axrow Hrow.
      assert (length axrow ∈ length <$> fig) as Hin by by apply list_elem_of_fmap_2.
      rewrite Hshape, fmap_replicate in Hin. apply elem_of_replicate_inv in Hin.
      by rewrite Hin, length_replicate.
    + intros i j approach name Hi Hj.
      destruct (Hcells i approach j name Hi Hj) as (percent & cell & Hp & Hcell & Hnew).
      apply lookup_lt_Some in Hi, Hj.
      rewrite panel_at_replicate in Hcell by lia. injection Hcell as <-.
      by exists percent.
Qed.

(** [makePlot], up to the loops, on a table that the check accepts. *)
Lemma makePlot_draw_loops data approaches sortedApproaches :
  checkApproachNames data = Ok approaches →
  sorted rowKey_lt rowKey approaches = Ok sortedApproaches →
  makePlot_draw data
  = if decide (length approaches = 0%nat) then Raise (ValueError bad_grid_size)
    else
      '(_, ax) ← for_each (makePlot_row data) sortedApproaches
                   (dimensionalIterator (length approaches) (length data),
                    replicate (length approaches) (replicate (length data) []));
      Ok ax.
Proof.
  intros Hcheck HsortedA. unfold makePlot_draw. rewrite Hcheck. cbn [mbind outcome_bind].
  assert (length data ≠ 0%nat) as Hcols.
  { apply checkApproachNames_Ok in Hcheck as (?&?&?&->&_). done. }
  unfold subplots. case_decide as Hzero; case_decide as Hrows; try lia; [done|].
  cbn [mbind outcome_bind]. by rewrite HsortedA.
Qed.

(** What a figure that [makePlot] has drawn tells. *)
Lemma makePlot_draw_Ok_cells data approaches sortedApproaches sortedNames fig :
  checkApproachNames data = Ok approaches →
  sorted rowKey_lt rowKey approaches = Ok sortedApproaches →
  sorted columnKey_lt columnKey (keys data) = Ok sortedNames →
  makePlot_draw data = Ok fig →
  approaches ≠ []
  ∧ forallb (λ approach, forallb (cell_ok data approach) sortedNames)
      sortedApproaches = true
  ∧ length fig = length approaches
  ∧ Forall (λ axrow, length axrow = length data) fig
  ∧ ∀ i j approach name,
      sortedApproaches !! i = Some approach → sortedNames !! j = Some name →
      ∃ percent,
        table_get data name approach = Some percent
        ∧ panel_at fig i j = Some (panel_calls i j approach name percent).
Proof.
  intros Hcheck HsortedA HsortedN.
  rewrite (makePlot_draw_loops _ _ _ Hcheck HsortedA).
  case_decide as Hzero; [done|].
  destruct (makePlot_loops_cases _ _ _ _ Hcheck HsortedA HsortedN) as [Hrefused Hdrawn].
  destruct (forallb _ sortedApproaches).
  - destruct Hdrawn as (fig' & -> & ? & ? & ?); [done|]. cbn. intros [= <-].
    split_and!; try done. by destruct approaches.
  - destruct Hrefused as [_ ->]; done.
Qed.

End makePlot_draw_facts.

(** C6, as the code has it.  For a consistent table whose approach names and
    mutation names all have sort keys and whose numbers all give slices that
    [ax.pie] accepts, the figure has as many rows as there are approach
    names and as many columns as there are mutation names; the panel at
    (i, j) holds the calls, made once and on fresh axes, for the approach at
    place i of the sorted approaches and the mutation at place j of the
    sorted names: its labels, then the pie of its percentage or the hidden
    axis; and the loops use up the row-major iterator exactly.  (A table
    whose mutations have no approach at all makes [subplots] reject the
    empty grid.) *)
Theorem makePlot_grid `{Builtins F} (data : table) (output : str) (w : world F)
    (approaches : pyset) (sortedApproaches sortedNames : list str) :
  checkApproachNames data = Ok approaches →
  sorted rowKey_lt rowKey approaches = Ok sortedApproaches →
  sorted columnKey_lt columnKey (keys data) = Ok sortedNames →
  table_pies_ok data →
  ∃ fig : figure F,
    (length fig = length approaches
     ∧ Forall (λ axrow, length axrow = length data) fig)
    ∧ (sortedApproaches ≡ₚ approaches ∧ sortedNames ≡ₚ keys data)
    ∧ (∀ i j approach name,
         sortedApproaches !! i = Some approach → sortedNames !! j = Some name →
         ∃ percent,
           table_get data name approach = Some percent
           ∧ panel_at fig i j
             = Some (panel_labels i j approach name
                     ++ match percent with
                        | None => [axis "off"]
                        | Some p => [pie (p, fsub hundred p) None None]
                        end))
    ∧ for_each (makePlot_row data) sortedApproaches
        (dimensionalIterator (length approaches) (length data),
         replicate (length approaches) (replicate (length data) []))
      = Ok ([], fig)
    ∧ makePlot_draw data
      = (if decide (length approaches = 0%nat)
         then Raise (ValueError bad_grid_size) else Ok fig)
    ∧ makePlot data output w
      = if decide (length approaches = 0%nat)
        then (Raise (ValueError bad_grid_size), w)
        else savefig output fig w.
Proof.
  intros Hcheck HsortedA HsortedN Hpies.
  destruct (makePlot_loops_cases _ _ _ _ Hcheck HsortedA HsortedN) as [_ Hdrawn].
  destruct Hdrawn as (fig & Hloop & Hrows & Hcols & Hcells).
  { by apply table_pies_ok_forallb. }
  destruct (sorted_Ok _ _ _ _ HsortedA) as [HpermA _].
  destruct (sorted_Ok _ _ _ _ HsortedN) as [HpermN _].
  assert (makePlot_draw data
          = if decide (length approaches = 0%nat)
            then Raise (ValueError bad_grid_size) else Ok fig) as Hdraw.
  { rewrite (makePlot_draw_loops _ _ _ Hcheck HsortedA), Hloop. by case_decide. }
  exists fig. split_and!; try done.
  unfold makePlot. rewrite Hdraw. by case_decide.
Qed.

Lemma makePlot_grid_witness :
  ∃ fig : figure Q,
    makePlot_draw example_table = Ok fig
    ∧ panel_at fig 0 1
      = Some [set_title "ORF10:A12T"; pie (12.5, 100 - 12.5)%Q None None]
    ∧ panel_at fig 1 1 = Some [axis "off"].
Proof.
  destruct (makePlot_grid example_table "out.png" empty_world
              ["Serum native"; "Serum cap"] ["Serum native"; "Serum cap"]
              ["ORF2:B100C"; "ORF10:A12T"])
    as (fig & _ & _ & Hcells & _ & Hdraw & _); [reflexivity..| |].
  { intros name approach p Hget. unfold table_get in Hget. simpl in Hget.
    repeat (case_match; simplify_eq/=); reflexivity. }
  exists fig. split; [exact Hdraw|]. split.
  - destruct (Hcells 0%nat 1%nat "Serum native" "ORF10:A12T") as (percent & Hp & Hcell);
      [reflexivity..|].
    vm_compute in Hp. injection Hp as <-. exact Hcell.
  - destruct (Hcells 1%nat 1%nat "Serum cap" "ORF10:A12T") as (percent & Hp & Hcell);
      [reflexivity..|].
    vm_compute in Hp. injection Hp as <-. exact Hcell.
Defined.

(** C6, as the specification has it, fails: a file of one data row whose
    percentage is 150 loads into a consistent table of one approach and one
    mutation; the slice 100 - 150 is negative, [ax.pie] raises, and no panel
    is drawn or saved. *)
Lemma makePlot_wedge_refused :
  getData [header; ["ORF1:Y2435K"; "Serum native"; "150"; "-50"]] empty_world
  = (Ok [("ORF1:Y2435K", [("Serum native", Some 150%Q)])], empty_world)
  ∧ main [header; ["ORF1:Y2435K"; "Serum native"; "150"; "-50"]] "out.png" empty_world
    = (Raise (ValueError bad_wedge_sizes), empty_world)
  ∧ checkApproachNames [("ORF1:Y2435K", [("Serum native", Some 150%Q)])]
    = Ok ["Serum native"]
  ∧ sorted rowKey_lt rowKey ["Serum native"] = Ok ["Serum native"]
  ∧ sorted columnKey_lt columnKey
      (keys [("ORF1:Y2435K", [("Serum native", Some 150%Q)])])
    = Ok ["ORF1:Y2435K"]
  ∧ makePlot [("ORF1:Y2435K", [("Serum native", Some 150%Q)])] "out.png" empty_world
    = (Raise (ValueError bad_wedge_sizes), empty_world)
  ∧ ¬ ∃ fig : figure Q,
        makePlot_draw [("ORF1:Y2435K", [("Serum native", Some 150%Q)])] = Ok fig.
Proof. split_and!; [reflexivity..|]. by intros [fig Hfig]. Qed.

(** C7, as the code has it.  In the figure that [makePlot] has drawn, the
    panel of a pair whose value is null holds its labels and the call that
    hides the axis, and no pie; the panel of a pair with a number holds its
    labels and one pie with the slices (percent, 100 - percent), called
    without labels and without a format for numbers, and [ax.pie] has
    accepted these slices.  Each panel holds the calls of its own pair only:
    a pass of the drawing loop changes the panel at the coordinate it takes
    and leaves every other panel as it was. *)
Theorem plotPie_panel `{Builtins F} (data : table) (fig : figure F)
    (approaches : pyset) (sortedApproaches sortedNames : list str)
    (i j : nat) (approach name : str) :
  checkApproachNames data = Ok approaches →
  sorted rowKey_lt rowKey approaches = Ok sortedApproaches →
  sorted columnKey_lt columnKey (keys data) = Ok sortedNames →
  makePlot_draw data = Ok fig →
  sortedApproaches !! i = Some approach → sortedNames !! j = Some name →
  (table_get data name approach = Some None →
     panel_at fig i j = Some (panel_labels i j approach name ++ [axis "off"])
     ∧ ∀ cell x labels autopct, panel_at fig i j = Some cell → pie x labels autopct ∉ cell)
  ∧ (∀ p, table_get data name approach = Some (Some p) →
       pie_accepts p (fsub hundred p) = true
       ∧ panel_at fig i j
         = Some (panel_labels i j approach name
                 ++ [pie (p, fsub hundred p) None None]))
  ∧ (∀ coords fig0 coords' fig1,
       makePlot_panel data approach (coords, fig0) name = Ok (coords', fig1) →
       ∃ r c, coords = (r, c) :: coords'
         ∧ ∀ r' c', (r', c') ≠ (r, c) → panel_at fig1 r' c' = panel_at fig0 r' c').
Proof.
  intros Hcheck HsortedA HsortedN Hdraw Hi Hj.
  destruct (makePlot_draw_Ok_cells _ _ _ _ _ Hcheck HsortedA HsortedN Hdraw)
    as (_ & Hok & _ & _ & Hcells).
  destruct (Hcells i j approach name Hi Hj) as (percent & Hp & Hcell).
  split_and!.
  - intros Hnull. rewrite Hp in Hnull. injection Hnull as ->.
    split; [exact Hcell|]. intros cell x labels autopct Hcell' Hin.
    rewrite Hcell in Hcell'. injection Hcell' as <-.
    unfold panel_calls, panel_labels, panel_drawing in Hin.
    repeat case_decide; simpl in Hin;
      repeat (apply elem_of_cons in Hin as [Hin|Hin]; [discriminate Hin|]);
      by apply elem_of_nil in Hin.
  - intros p Hnum. rewrite Hp in Hnum. injection Hnum as ->. split; [|exact Hcell].
    rewrite forallb_forall in Hok.
    apply list_elem_of_lookup_2, list_elem_of_In, Hok in Hi.
    rewrite forallb_forall in Hi.
    apply list_elem_of_lookup_2, list_elem_of_In, Hi in Hj.
    unfold cell_ok in Hj. by rewrite Hp in Hj.
  - intros coords fig0 coords' fig1. apply makePlot_panel_frame.
Qed.

Lemma plotPie_panel_witness :
  ∃ fig : figure Q,
    makePlot_draw example_table = Ok fig
    ∧ (table_get example_table "ORF10:A12T" "Serum cap" = Some None →
       panel_at fig 1 1 = Some (panel_labels 1 1 "Serum cap" "ORF10:A12T" ++ [axis "off"])
       ∧ ∀ cell x labels autopct,
           panel_at fig 1 1 = Some cell → pie x labels autopct ∉ cell)
    ∧ panel_at fig 1 1 = Some [axis "off"].
Proof.
  eexists. split; [reflexivity|].
  split; [|reflexivity].
  refine (proj1 (plotPie_panel example_table _
                   ["Serum native"; "Serum cap"] ["Serum native"; "Serum cap"]
                   ["ORF2:B100C"; "ORF10:A12T"] 1 1 "Serum cap" "ORF10:A12T"
                   _ _ _ _ _ _)); reflexivity.
Defined.

(** C7, as the specification has it, fails: a pair with the number -5 gets
    no pie chart, because [ax.pie] raises for the negative slice and the
    run stops there. *)
Lemma plotPie_percent_refused :
  table_get [("ORF1:Y2435K", [("Serum native", Some (-5)%Q)])]
    "ORF1:Y2435K" "Serum native" = Some (Some (-5)%Q)
  ∧ plotPie (Some (-5)%Q) [] 0 0 "Serum native" "ORF1:Y2435K"
    = Raise (ValueError bad_wedge_sizes)
  ∧ makePlot_draw [("ORF1:Y2435K", [("Serum native", Some (-5)%Q)])]
    = Raise (ValueError bad_wedge_sizes)
  ∧ main [header; ["ORF1:Y2435K"; "Serum native"; "-5"; "105"]] "out.png" empty_world
    = (Raise (ValueError bad_wedge_sizes), empty_world).
Proof. split_and!; reflexivity. Qed.

(** * Further properties of the program *)

(** ** The loader: when it succeeds, and what it touches *)

Section getData_more.
Context `{Builtins F}.
Implicit Types (acc data : dict (dict (option F))) (w : world F).

Lemma percent_value_data_row name approach percent rest (v : option F) :
  percent_value percent v → data_row [name; approach; percent; rest].
Proof.
  intros Hv. exists name, approach, percent, rest. split; [done|].
  destruct Hv as [[-> _] | (_ & x & Hx & _)]; [by left | right; by eexists].
Qed.

Lemma getData_rows_data_row rows acc w data w' :
  getData_rows rows acc w = (Ok data, w') → Forall data_row rows.
Proof.
  revert acc w. induction rows as [|row rows IH]; intros acc w; simpl; [done|].
  destruct (getData_row row acc w) as [[acc1|e] w1] eqn:Hrow; [|done].
  apply getData_row_Ok in Hrow as (n & a & p & r & v & -> & -> & _ & Hv & _).
  intros Hrows. constructor; [by eapply percent_value_data_row | by eapply IH].
Qed.

Lemma getData_rows_app pre post acc w acc' w' :
  getData_rows pre acc w = (Ok acc', w') →
  getData_rows (pre ++ post) acc w = getData_rows post acc' w'.
Proof.
  revert acc w. induction pre as [|row pre IH]; intros acc w; simpl.
  - by intros [= <- <-].
  - destruct (getData_row row acc w) as [[acc1|e] w1]; [apply IH|done].
Qed.

(** The three ways a pass of the loop can end. *)
Lemma getData_row_cases row acc w :
  (∃ acc', getData_row row acc w = (Ok acc', w))
  ∨ (∃ approach name,
       getData_row row acc w
       = (Raise (SystemExit 1), print_stderr (found_twice approach name) w))
  ∨ (∃ why, getData_row row acc w = (Raise (ValueError why), w)).
Proof.
  destruct row as [|name [|approach [|percent [|rest [|]]]]];
    try (right; right; by eexists).
  rewrite getData_row_4.
  destruct (dict_get_new_name acc name) as [inner Hinner].
  rewrite (getitem_Ok _ _ _ Hinner).
  destruct (dict_mem approach inner); [right; left; by eauto|].
  destruct (String.eqb percent ""); [left; by eauto|].
  destruct (float percent); [left; by eauto | right; right; by eauto].
Qed.

Lemma getData_rows_effects rows acc w :
  files (getData_rows rows acc w).2 = files w
  ∧ ((getData_rows rows acc w).1 ≠ Raise (SystemExit 1) →
       (getData_rows rows acc w).2 = w)
  ∧ ((getData_rows rows acc w).1 = Raise (SystemExit 1) →
       ∃ approach name,
         stderr (getData_rows rows acc w).2
         = stderr w ++ [found_twice approach name]).
Proof.
  revert acc. induction rows as [|row rows IH]; intros acc; simpl; [done|].
  destruct (getData_row_cases row acc w)
    as [[acc' ->] | [(approach & name & ->) | [why ->]]]; simpl.
  - apply IH.
  - split_and!; [done..|]. intros _. by exists approach, name.
  - done.
Qed.

End getData_more.

(** A file with the header, well-formed rows and no repeated pair loads. *)
Lemma getData_loads `{Builtins F} (rows : list (list str)) (w : world F) :
  Forall data_row rows →
  (∀ name approach, ¬ twice_in rows name approach) →
  ∃ data, getData (header :: rows) w = (Ok data, w).
Proof.
  intros Hrows Hnodup. rewrite getData_header.
  apply getData_rows_total; [done..|]. by intros.
Qed.

(** X1.  The loader returns a table exactly for a file that starts with the
    required header, whose data rows all have four fields with a percent
    field that is empty or readable by [float], and in which no (mutation,
    approach) pair appears twice; a load that returns leaves the world as it
    was. *)
Theorem getData_Ok_iff `{Builtins F} (reader : list (list str)) (w : world F) :
  ((∃ data w', getData reader w = (Ok data, w'))
   ↔ ∃ rows, reader = header :: rows
       ∧ Forall data_row rows ∧ ∀ name approach, ¬ twice_in rows name approach)
  ∧ (∀ data w', getData reader w = (Ok data, w') → w' = w).
Proof.
  assert (∀ data w', getData reader w = (Ok data, w') → w' = w) as Hworld.
  { intros data w' Hrows%getData_Ok_header. by eapply getData_rows_world. }
  split; [|done]. split.
  - intros (data & w' & Hload). pose proof Hload as Hrows%getData_Ok_header.
    unfold getData in Hload. destruct reader as [|hd rows]; [done|]. simpl in *.
    case_decide as Hhd; [|done]. subst hd. exists rows. split_and!; [done| |].
    + by eapply getData_rows_data_row.
    + intros name approach Htwice.
      destruct (getData_rows_twice rows [] w) as (n & a & _ & Hexit);
        [by eapply getData_rows_data_row | by eauto |].
      by rewrite Hexit in Hrows.
  - intros (rows & -> & Hrows & Hnodup).
    destruct (getData_loads rows w Hrows Hnodup) as [data Hload]. by exists data, w.
Qed.

(** X2.  The loader never writes a file.  It writes to standard error only
    when it ends with [sys.exit(1)], and then one line, the message about a
    pair found twice; in every other case the world is as it was. *)
Theorem getData_effects `{Builtins F} (reader : list (list str)) (w : world F) :
  files (getData reader w).2 = files w
  ∧ ((getData reader w).1 ≠ Raise (SystemExit 1) → (getData reader w).2 = w)
  ∧ ((getData reader w).1 = Raise (SystemExit 1) →
       ∃ approach name,
         stderr (getData reader w).2 = stderr w ++ [found_twice approach name]).
Proof.
  unfold getData. destruct reader as [|hd rows]; simpl; [done|].
  case_decide; [apply getData_rows_effects | done].
Qed.

(** X3.  A data row that does not have exactly four fields stops the load
    with the [ValueError] of the failed unpacking, whatever follows it. *)
Theorem getData_field_count `{Builtins F} (pre post : list (list str))
    (row : list str) (w w' : world F) (acc : table) :
  getData (header :: pre) w = (Ok acc, w') →
  length row ≠ 4%nat →
  getData (header :: pre ++ row :: post) w
  = (Raise (ValueError (if decide (4 < length row)%nat then too_many_values 4
                        else not_enough_values 4 (length row))), w).
Proof.
  rewrite !getData_header. intros Hpre Hlen.
  pose proof (getData_rows_world _ _ _ _ _ Hpre) as ->.
  rewrite (getData_rows_app _ _ _ _ _ _ Hpre). simpl.
  by destruct row as [|a [|b [|c [|d [|e row]]]]].
Qed.

Lemma getData_field_count_witness :
  getData (header :: [["ORF1:Y2435K"; "Serum native"; "1"; "99"]]
             ++ ["ORF1:Y2435K"; "Serum cap"; "2"] :: [])
    empty_world
  = (Raise (ValueError (not_enough_values 4 3)), empty_world).
Proof.
  apply (getData_field_count
           [["ORF1:Y2435K"; "Serum native"; "1"; "99"]] []
           ["ORF1:Y2435K"; "Serum cap"; "2"] empty_world empty_world
           [("ORF1:Y2435K", [("Serum native", Some 1%Q)])]).
  - reflexivity.
  - simpl. lia.
Defined.

(** X4.  A data row with a new pair whose percent field is neither empty nor
    readable by [float] stops the load with the [ValueError] of the
    conversion, which carries the field. *)
Theorem getData_percent_unreadable `{Builtins F} (pre post : list (list str))
    (name approach percent rest : str) (w w' : world F) (acc : table) :
  getData (header :: pre) w = (Ok acc, w') →
  table_get acc name approach = None →
  percent ≠ "" → float percent = None →
  getData (header :: pre ++ [name; approach; percent; rest] :: post) w
  = (Raise (ValueError (could_not_convert percent)), w).
Proof.
  rewrite !getData_header. intros Hpre Hnew Hp Hfloat.
  pose proof (getData_rows_world _ _ _ _ _ Hpre) as ->.
  rewrite (getData_rows_app _ _ _ _ _ _ Hpre). cbn [getData_rows].
  rewrite getData_row_4.
  rewrite <-(table_get_new_name acc name) in Hnew.
  destruct (dict_get_new_name acc name) as [inner Hinner].
  rewrite (getitem_Ok _ _ _ Hinner).
  unfold table_get in Hnew. rewrite Hinner in Hnew; simpl in Hnew.
  rewrite dict_mem_get, Hnew.
  rewrite bool_decide_eq_false_2 by by intros [??].
  by rewrite string_eqb_eq, bool_decide_eq_false_2, Hfloat.
Qed.

Lemma getData_percent_unreadable_witness :
  getData (header :: [["ORF1:Y2435K"; "Serum native"; "1"; "99"]]
             ++ ["ORF1:Y2435K"; "Serum cap"; "n/a"; ""] :: [])
    empty_world
  = (Raise (ValueError (could_not_convert "n/a")), empty_world).
Proof.
  apply (getData_percent_unreadable
           [["ORF1:Y2435K"; "Serum native"; "1"; "99"]] []
           "ORF1:Y2435K" "Serum cap" "n/a" "" empty_world empty_world
           [("ORF1:Y2435K", [("Serum native", Some 1%Q)])]);
    [reflexivity | reflexivity | discriminate | reflexivity].
Defined.

(** ** The shape of a loaded table *)

Section table_wf_facts.
Context {V : Type}.
Implicit Types (d : dict V) (k : str) (v : V).

Lemma dict_get_None_keys k d : dict_get k d = None → k ∉ keys d.
Proof. intros Hd [v Hk]%dict_get_keys. congruence. Qed.

Lemma NoDup_keys_setitem k v d : NoDup (keys d) → NoDup (keys (setitem k v d)).
Proof.
  intros Hd. destruct (dict_get k d) as [v'|] eqn:Hk.
  - by rewrite keys_setitem_old by by eexists.
  - rewrite keys_setitem_new by done. apply NoDup_app. split_and!; [done| |].
    + intros x Hx ->%list_elem_of_singleton. by apply dict_get_None_keys in Hk.
    + apply NoDup_singleton.
Qed.

(** Storing at [k] establishes a property of all entries that the entries
    under the other keys already have. *)
Lemma Forall_setitem (P : str * V → Prop) k v d :
  NoDup (keys d) → Forall (λ entry, entry.1 ≠ k → P entry) d → P (k, v) →
  Forall P (setitem k v d).
Proof.
  intros Hnodup Hd Hkv. induction Hd as [|[k' v'] d Hk' Hd IH]; cbn [setitem].
  - by constructor.
  - unfold keys in Hnodup. rewrite fmap_cons in Hnodup.
    apply NoDup_cons in Hnodup as [Hnotin Hnodup].
    destruct (String.eqb k' k) eqn:Hk.
    + apply String.eqb_eq in Hk as ->. constructor; [done|].
      rewrite Forall_forall in *. intros entry Hentry. apply Hd; [done|].
      intros <-. apply Hnotin. exact (list_elem_of_fmap_2 fst d entry Hentry).
    + apply String.eqb_neq in Hk. constructor; [by apply Hk'|by apply IH].
Qed.

Lemma dict_get_Forall (P : str * V → Prop) k v d :
  Forall P d → dict_get k d = Some v → P (k, v).
Proof.
  induction 1 as [|[k' v'] d Hk' Hd IH]; simpl; [done|].
  destruct (String.eqb k' k) eqn:Hk; [|done].
  apply String.eqb_eq in Hk as ->. by intros [= <-].
Qed.

Lemma setitem_not_nil k v d : setitem k v d ≠ [].
Proof. destruct d as [|[k' v'] d]; simpl; [done|]. by destruct (String.eqb k' k). Qed.

End table_wf_facts.

Section getData_table.
Context `{Builtins F}.
Implicit Types (acc data : dict (dict (option F))) (w : world F).

(** Recording a measurement keeps the table in shape. *)
Lemma table_wf_record acc name approach (v : option F) inner :
  table_wf acc →
  dict_get name (if dict_mem name acc then acc else setitem name [] acc) = Some inner →
  table_wf (setitem name (setitem approach v inner)
              (if dict_mem name acc then acc else setitem name [] acc)).
Proof.
  intros [Hkeys Hinner]. rewrite dict_mem_get. case_bool_decide as Hname; intros Hget.
  - split; [by apply NoDup_keys_setitem|].
    apply Forall_setitem; [done| |].
    + eapply Forall_impl; [apply Hinner|]. by intros ? ? _.
    + split; [apply setitem_not_nil|]. apply NoDup_keys_setitem.
      by apply (dict_get_Forall _ _ _ _ Hinner Hget).
  - rewrite dict_get_setitem in Hget. injection Hget as <-.
    apply eq_None_not_Some in Hname.
    split; [by do 2 apply NoDup_keys_setitem|].
    apply Forall_setitem; [by apply NoDup_keys_setitem| |].
    + apply Forall_setitem; [done| |done].
      eapply Forall_impl; [apply Hinner|]. by intros ? ? _.
    + split; [done|]. apply NoDup_singleton.
Qed.

Lemma getData_row_wf row acc w acc' w' :
  table_wf acc → getData_row row acc w = (Ok acc', w') → table_wf acc'.
Proof.
  intros Hwf.
  destruct row as [|name [|approach [|percent [|rest [|]]]]]; try done.
  rewrite getData_row_4.
  destruct (dict_get_new_name acc name) as [inner Hget].
  rewrite (getitem_Ok _ _ _ Hget).
  destruct (dict_mem approach inner); [done|].
  destruct (String.eqb percent "").
  { intros [= <- _]. by apply table_wf_record. }
  destruct (float percent); [|done].
  intros [= <- _]. by apply table_wf_record.
Qed.

Lemma getData_rows_wf rows acc w data w' :
  table_wf acc → getData_rows rows acc w = (Ok data, w') → table_wf data.
Proof.
  revert acc w. induction rows as [|row rows IH]; intros acc w Hwf; simpl.
  - by intros [= <- _].
  - destruct (getData_row row acc w) as [[acc1|e] w1] eqn:Hrow; [|done].
    apply IH. by eapply getData_row_wf.
Qed.

End getData_table.

(** X5.  In a loaded table no mutation is listed twice, every mutation has at
    least one approach and none twice, and the mutations listed are those
    that some data row names. *)
Theorem getData_table_wf `{Builtins F} (reader : list (list str)) (w w' : world F)
    (data : table) :
  getData reader w = (Ok data, w') →
  table_wf data
  ∧ ∀ name, name ∈ keys data
      ↔ ∃ approach percent rest, [name; approach; percent; rest] ∈ tail reader.
Proof.
  intros Hload%getData_Ok_header.
  assert (table_wf data) as Hwf.
  { eapply getData_rows_wf; [|exact Hload]. split; constructor. }
  split; [done|]. intros name. split.
  - intros [inner Hinner]%dict_get_keys.
    destruct Hwf as [_ Hinners].
    destruct (dict_get_Forall _ _ _ _ Hinners Hinner) as [Hne _]; simpl in Hne.
    destruct inner as [|[approach v] inner]; [done|].
    assert (table_get data name approach = Some v) as Hget.
    { unfold table_get. rewrite Hinner; simpl. by rewrite String.eqb_refl. }
    destruct (getData_rows_from _ _ _ _ _ _ _ _ Hload Hget) as [?|(p & r & Hin & _)];
      [done|by eauto].
  - intros (approach & percent & rest & Hrow).
    destruct (getData_rows_Ok _ _ _ _ _ Hload) as [_ Hrows].
    destruct (Hrows _ _ _ _ Hrow) as (v & _ & Hget).
    unfold table_get in Hget.
    destruct (dict_get name data) as [inner|] eqn:Hinner; [|done].
    by eapply dict_get_Some_keys.
Qed.

Lemma getData_table_wf_witness :
  table_wf example_table
  ∧ ∀ name, name ∈ keys example_table
      ↔ ∃ approach percent rest, [name; approach; percent; rest] ∈ tail example_rows.
Proof.
  apply (getData_table_wf example_rows empty_world empty_world example_table).
  reflexivity.
Defined.

(** ** The key functions, case by case *)

Lemma list_index_native_cap (m : str) :
  list_index m ["native"; "cap"]
  = if String.eqb "native" m then Ok 0
    else if String.eqb "cap" m then Ok 1
    else Raise (ValueError (not_in_list m)).
Proof.
  cbn [list_index]. destruct (String.eqb "native" m); [done|].
  by destruct (String.eqb "cap" m).
Qed.

Lemma split_from_inv sep tok s :
  (∀ x, split_from sep tok s = [x] → x = tok +:+ s ∧ no_char sep s = true)
  ∧ (∀ a b, split_from sep tok s = [a; b] →
       ∃ a', a = tok +:+ a' ∧ s = a' +:+ String sep b
             ∧ no_char sep a' = true ∧ no_char sep b = true).
Proof.
  revert tok. induction s as [|c s IH]; intros tok; cbn [split_from].
  - split.
    + intros x [= <-]. by rewrite append_empty_r.
    + done.
  - destruct (Ascii.eqb c sep) eqn:Hc.
    + apply Ascii.eqb_eq in Hc as ->. split; [intros x Hx|intros a b Hab].
      * injection Hx as _ Hx. pose proof (split_from_length sep "" s) as Hlen.
        by rewrite Hx in Hlen.
      * injection Hab as <- Hab. destruct (proj1 (IH "") b Hab) as [-> Hb].
        exists "". rewrite append_empty_r, !append_empty_l. done.
    + split; [intros x Hx|intros a b Hab].
      * destruct (proj1 (IH _) x Hx) as [-> Hs]. rewrite snoc_append.
        split; [done|]. cbn [no_char]. by rewrite Hc.
      * destruct (proj2 (IH _) a b Hab) as (a' & -> & -> & Ha' & Hb).
        exists (String c a'). rewrite snoc_append, append_cons.
        split_and!; [done..| |done]. cbn [no_char]. by rewrite Hc.
Qed.

Lemma split_well_split name orf mutation :
  split ":" name = [orf; mutation] ↔ well_split name orf mutation.
Proof.
  split.
  - intros (a' & -> & -> & Ha & Hb)%split_from_inv.
    rewrite append_empty_l. split_and!; [|done..].
    by rewrite append_cons, append_empty_l.
  - intros (-> & Ho & Hm). rewrite append_cons, append_empty_l. by apply split_name.
Qed.

Lemma DIGITS_search_no_digit pre s :
  no_digit pre = true → DIGITS_search (pre +:+ s) = DIGITS_search s.
Proof.
  induction pre as [|c pre IH]; [done|]. rewrite append_cons; cbn [no_digit DIGITS_search].
  intros [Hc Hpre]%andb_prop. apply negb_true_iff in Hc. rewrite Hc. by apply IH.
Qed.

Lemma digit_run_all_digits run post :
  all_digits run = true → digit_run (run +:+ post) = run +:+ digit_run post.
Proof.
  induction run as [|c run IH]; [done|]. rewrite !append_cons; cbn [all_digits digit_run].
  intros [Hc Hrun]%andb_prop. rewrite Hc. by rewrite IH.
Qed.

(** The search finds the first run of digits, and only that. *)
Lemma DIGITS_search_first_digit_run s run :
  DIGITS_search s = Some run ↔ first_digit_run s run.
Proof.
  split.
  - intros Hs. destruct (no_digit s) eqn:Hno.
    { by rewrite DIGITS_search_None in Hs. }
    destruct (DIGITS_search_spec s Hno) as (run' & Hrun' & Hfirst). congruence.
  - intros (pre & post & -> & Hpre & Hne & Hrun & Hpost).
    rewrite DIGITS_search_no_digit by done.
    destruct run as [|c run]; [done|]. rewrite append_cons.
    cbn [all_digits] in Hrun. apply andb_prop in Hrun as [Hc Hrun].
    cbn [DIGITS_search]. rewrite Hc.
    by rewrite digit_run_all_digits, Hpost, append_empty_r.
Qed.

(** X7.  [columnKey] returns a key exactly for the names with one colon and
    a digit in each token, and the key holds the numbers of the first runs
    of digits of the two tokens; it returns a key on no malformed name and
    fails on no other. *)
Theorem columnKey_Ok_iff (name : str) :
  (∀ k, columnKey name = Ok k ↔ site_numbers name k)
  ∧ ((∃ k, columnKey name = Ok k) ↔ ¬ malformed name).
Proof.
  assert (∀ k, columnKey name = Ok k ↔ site_numbers name k) as Hiff.
  { intros k. unfold columnKey. split.
    - destruct (split ":" name) as [|orf [|mutation [|c parts]]] eqn:Hsplit;
        cbn [unpack2 mbind outcome_bind]; try done.
      apply split_well_split in Hsplit.
      destruct (DIGITS_search orf) as [r1|] eqn:Hr1; cbn; [|done].
      destruct (DIGITS_search mutation) as [r2|] eqn:Hr2; cbn; [|done].
      intros [= <-]. exists orf, mutation, r1, r2.
      split_and!; [done| | |done]; by apply DIGITS_search_first_digit_run.
    - intros (orf & mutation & r1 & r2 & Hname & Hr1 & Hr2 & ->).
      apply split_well_split in Hname. rewrite Hname. cbn [unpack2 mbind outcome_bind].
      apply DIGITS_search_first_digit_run in Hr1, Hr2.
      rewrite Hr1; cbn. by rewrite Hr2. }
  split; [done|]. split.
  - intros (k & (orf & mutation & r1 & r2 & Hname & Hr1 & Hr2 & _)%Hiff) Hbad.
    destruct Hbad as [Hcount | (orf' & mutation' & Hname' & Hno)].
    + by rewrite (well_split_count _ _ _ Hname) in Hcount.
    + apply split_well_split in Hname, Hname'. rewrite Hname in Hname'.
      injection Hname' as <- <-.
      apply DIGITS_search_first_digit_run in Hr1, Hr2.
      destruct Hno as [Hno|Hno]; apply DIGITS_search_None in Hno; congruence.
  - intros Hgood. unfold columnKey.
    destruct (split ":" name) as [|orf [|mutation [|c parts]]] eqn:Hsplit;
      cbn [unpack2 mbind outcome_bind].
    1,2,4: destruct Hgood; left;
      pose proof (split_from_length ":" "" name) as Hlen;
      fold (split ":" name) in Hlen; rewrite Hsplit in Hlen; simpl in Hlen; lia.
    apply split_well_split in Hsplit.
    destruct (no_digit orf) eqn:Ho.
    { destruct Hgood. right. exists orf, mutation. auto. }
    destruct (no_digit mutation) eqn:Hm.
    { destruct Hgood. right. exists orf, mutation. auto. }
    destruct (DIGITS_search_spec _ Ho) as (r1 & -> & _).
    destruct (DIGITS_search_spec _ Hm) as (r2 & -> & _). cbn. by eexists.
Qed.

(** ** The sorted order does not depend on the order of the input *)

Lemma rowKey_le_antisym a b :
  key_le rowKey_lt a b → key_le rowKey_lt b a → a = b.
Proof.
  destruct a as [[t1 s1] m1], b as [[t2 s2] m2]; unfold key_le, rowKey_lt.
  rewrite !string_eqb_eq. key_cases; try done; try lia;
    first [ intros H21 H12; pose proof (string_ltb_connex _ _ H12 H21); congruence
          | intros; f_equal; lia ].
Qed.

Lemma columnKey_le_antisym a b :
  key_le columnKey_lt a b → key_le columnKey_lt b a → a = b.
Proof.
  destruct a as [o1 p1], b as [o2 p2]; unfold key_le, columnKey_lt.
  key_cases; try done; try lia. intros. f_equal. lia.
Qed.

Section sorted_any_order.
Context {K : Type} (lt : K → K → bool).
Hypothesis lt_asym : ∀ a b, lt a b = true → lt b a = false.
Hypothesis le_trans : Transitive (key_le lt).
Hypothesis le_antisym : ∀ a b, key_le lt a b → key_le lt b a → a = b.

(** When no two elements share a key, the sorted list is the same for every
    order of the input. *)
Lemma sorted_Permutation (key : str → outcome K) l1 l2 l' :
  l1 ≡ₚ l2 →
  (∀ x y, x ∈ l1 → y ∈ l1 → key x = key y → x = y) →
  sorted lt key l1 = Ok l' → sorted lt key l2 = Ok l'.
Proof.
  intros Hperm Hinj Hsorted.
  destruct (sorted_Ok lt key l1 l' Hsorted) as [Hperm1 Hkeys].
  destruct (sorted_spec lt lt_asym le_trans key l1 Hkeys) as (l1' & Hl1 & _ & HS1).
  rewrite Hsorted in Hl1. injection Hl1 as <-.
  rewrite Hperm in Hkeys.
  destruct (sorted_spec lt lt_asym le_trans key l2 Hkeys) as (l2' & -> & Hperm2 & HS2).
  f_equal. symmetry.
  eapply StronglySorted_unique_strong; [|exact HS1|exact HS2|].
  - intros x y Hx Hy (kx & ky & Hkx & Hky & Hle) (ky' & kx' & Hky' & Hkx' & Hle').
    rewrite Hkx in Hkx'. rewrite Hky in Hky'.
    injection Hkx' as <-. injection Hky' as <-.
    apply Hinj.
    + by rewrite <-Hperm1.
    + by rewrite Hperm, <-Hperm2.
    + rewrite Hkx, Hky. f_equal. by apply le_antisym.
  - by rewrite Hperm1, Hperm2.
Qed.

End sorted_any_order.

(** X8.  The order of the rows of the plot does not depend on the order in
    which the set of approach names is iterated, provided that no two
    approach names have the same row key. *)
Theorem sorted_rowKey_any_order (approaches approaches' sortedApproaches : list str) :
  approaches ≡ₚ approaches' →
  (∀ x y, x ∈ approaches → y ∈ approaches → rowKey x = rowKey y → x = y) →
  sorted rowKey_lt rowKey approaches = Ok sortedApproaches →
  sorted rowKey_lt rowKey approaches' = Ok sortedApproaches.
Proof.
  apply sorted_Permutation;
    [apply rowKey_lt_asym | apply rowKey_le_trans | apply rowKey_le_antisym].
Qed.

Lemma sorted_rowKey_any_order_witness :
  sorted rowKey_lt rowKey ["Serum cap"; "Saliva native"; "Serum native"]
  = Ok ["Serum native"; "Serum cap"; "Saliva native"].
Proof.
  apply (sorted_rowKey_any_order ["Saliva native"; "Serum native"; "Serum cap"]).
  - symmetry. exact (Permutation_cons_append ["Saliva native"; "Serum native"] "Serum cap").
  - intros x y Hx Hy. set_unfold.
    destruct Hx as [->|[->|[->|[]]]]; destruct Hy as [->|[->|[->|[]]]];
      by vm_compute.
  - reflexivity.
Defined.

(** X9.  The order of the columns of the plot does not depend on the order
    in which the mutations first appear in the file, provided that no two
    mutation names have the same column key. *)
Theorem sorted_columnKey_any_order (names names' sortedNames : list str) :
  names ≡ₚ names' →
  (∀ x y, x ∈ names → y ∈ names → columnKey x = columnKey y → x = y) →
  sorted columnKey_lt columnKey names = Ok sortedNames →
  sorted columnKey_lt columnKey names' = Ok sortedNames.
Proof.
  apply sorted_Permutation;
    [apply columnKey_lt_asym | apply columnKey_le_trans | apply columnKey_le_antisym].
Qed.

Lemma sorted_columnKey_any_order_witness :
  sorted columnKey_lt columnKey ["ORF2:B100C"; "ORF2:A5G"; "ORF10:A12T"]
  = Ok ["ORF2:A5G"; "ORF2:B100C"; "ORF10:A12T"].
Proof.
  apply (sorted_columnKey_any_order ["ORF10:A12T"; "ORF2:B100C"; "ORF2:A5G"]).
  - exact (Permutation_cons_append ["ORF2:B100C"; "ORF2:A5G"] "ORF10:A12T").
  - intros x y Hx Hy. set_unfold.
    destruct Hx as [->|[->|[->|[]]]]; destruct Hy as [->|[->|[->|[]]]];
      by vm_compute.
  - reflexivity.
Defined.

(** ** How [makePlot] and [main] end *)

Lemma rowKey_Raise name e : rowKey name = Raise e → ∃ why, e = ValueError why.
Proof.
  unfold rowKey. destruct (split_ws name) as [|a [|b [|c parts]]];
    cbn [unpack2 mbind outcome_bind length]; try (intros [= <-]; by eexists).
  rewrite list_index_native_cap.
  destruct (String.eqb "native" b); [done|].
  destruct (String.eqb "cap" b); [done|]. intros [= <-]. by eexists.
Qed.

Lemma columnKey_Raise name e :
  columnKey name = Raise e → e = AttributeError ∨ ∃ why, e = ValueError why.
Proof.
  unfold columnKey. destruct (split ":" name) as [|a [|b [|c parts]]];
    cbn [unpack2 mbind outcome_bind length]; try (intros [= <-]; right; by eexists).
  destruct (DIGITS_search a); cbn; [|intros [= <-]; by left].
  destruct (DIGITS_search b); cbn; [done|intros [= <-]; by left].
Qed.

Lemma sorted_Raise {K} (lt : K → K → bool) (key : str → outcome K) l e :
  sorted lt key l = Raise e → ∃ x, x ∈ l ∧ key x = Raise e.
Proof.
  unfold sorted. destruct (mapM _ l) as [keyed|e'] eqn:Hkeyed; cbn; [done|].
  intros [= ->]. revert Hkeyed. induction l as [|x l IH]; cbn; [done|].
  destruct (key x) as [k|e'] eqn:Hk; cbn.
  - destruct (mapM _ l) as [ks|e'] eqn:Hks; cbn; [done|].
    intros [= ->]. destruct IH as (y & Hy & Hky); [done|]. exists y. split; [by right|done].
  - intros [= ->]. exists x. split; [left|done].
Qed.

Section makePlot_ends.
Context `{Builtins F}.
Implicit Types (data : dict (dict (option F))) (fig : figure F) (w : world F).

Lemma checkApproachNames_Raise data e :
  checkApproachNames data = Raise e →
  (e = UnboundLocalError "approaches" ∧ data = []) ∨ e = AssertionError.
Proof.
  destruct data as [|[name0 inner0] rest].
  - intros [= <-]. by left.
  - rewrite checkApproachNames_cons. destruct (forallb _ _); [done|].
    intros [= <-]. by right.
Qed.

(** A grid whose cells were all accepted holds every number of the
    table. *)
Lemma forallb_cell_ok_pies data approaches sortedApproaches sortedNames :
  checkApproachNames data = Ok approaches →
  sorted rowKey_lt rowKey approaches = Ok sortedApproaches →
  sorted columnKey_lt columnKey (keys data) = Ok sortedNames →
  forallb (λ approach, forallb (cell_ok data approach) sortedNames) sortedApproaches
  = true →
  table_pies_ok data.
Proof.
  intros Hcheck HsortedA HsortedN Hok name approach p Hget.
  apply checkApproachNames_Ok in Hcheck as (name0 & inner0 & rest & Hdata & -> & Hsame).
  destruct (sorted_Ok _ _ _ _ HsortedA) as [HpermA _].
  destruct (sorted_Ok _ _ _ _ HsortedN) as [HpermN _].
  pose proof Hget as Hcell. unfold table_get in Hget.
  destruct (dict_get name data) as [inner|] eqn:Hinner; simpl in Hget; [|done].
  assert (name ∈ sortedNames) as Hname.
  { rewrite HpermN. by eapply dict_get_Some_keys. }
  assert (approach ∈ sortedApproaches) as Happroach.
  { rewrite HpermA. apply set_of_elem.
    destruct (Hsame name) as (inner' & Hinner' & Hkeys); [by eapply dict_get_Some_keys|].
    rewrite Hinner in Hinner'. injection Hinner' as <-.
    apply Hkeys. by eapply dict_get_Some_keys. }
  rewrite forallb_forall in Hok. apply list_elem_of_In, Hok in Happroach.
  rewrite forallb_forall in Happroach. apply list_elem_of_In, Happroach in Hname.
  unfold cell_ok in Hname. by rewrite Hcell in Hname.
Qed.

(** When the check and both sorts succeed, there is an approach and every
    number is accepted, [makePlot] draws a figure. *)
Lemma makePlot_draw_Ok data approaches :
  checkApproachNames data = Ok approaches → approaches ≠ [] →
  Forall (λ x, ∃ k, rowKey x = Ok k) approaches →
  Forall (λ x, ∃ k, columnKey x = Ok k) (keys data) →
  table_pies_ok data →
  ∃ fig, makePlot_draw data = Ok fig.
Proof.
  intros Hcheck Hne HkeysA HkeysN Hpies.
  destruct (sorted_spec rowKey_lt rowKey_lt_asym rowKey_le_trans rowKey
              approaches HkeysA) as (sortedA & HsortedA & _).
  destruct (sorted_spec columnKey_lt columnKey_lt_asym columnKey_le_trans columnKey
              (keys data) HkeysN) as (sortedN & HsortedN & _).
  destruct (makePlot_loops_cases _ _ _ _ Hcheck HsortedA HsortedN) as [_ Hdrawn].
  destruct Hdrawn as (fig & Hloop & _); [by apply table_pies_ok_forallb|].
  exists fig. rewrite (makePlot_draw_loops _ _ _ Hcheck HsortedA), Hloop.
  case_decide as Hzero; [by destruct approaches|done].
Qed.

Lemma makePlot_draw_Raise data e :
  makePlot_draw data = Raise e →
  (e = UnboundLocalError "approaches" ∧ data = [])
  ∨ e = AssertionError ∨ e = AttributeError ∨ ∃ why, e = ValueError why.
Proof.
  destruct (checkApproachNames data) as [approaches|e'] eqn:Hcheck.
  2: { unfold makePlot_draw. rewrite Hcheck. cbn [mbind outcome_bind].
       intros [= <-]. apply checkApproachNames_Raise in Hcheck. tauto. }
  destruct (sorted rowKey_lt rowKey approaches) as [sortedA|e'] eqn:HsortedA.
  2: { unfold makePlot_draw. rewrite Hcheck. cbn [mbind outcome_bind].
       unfold subplots. case_decide; cbn [mbind outcome_bind].
       - intros [= <-]. right; right; right. by eexists.
       - rewrite HsortedA. cbn [mbind outcome_bind]. intros [= <-].
         apply sorted_Raise in HsortedA as (x & _ & Hx).
         apply rowKey_Raise in Hx. tauto. }
  rewrite (makePlot_draw_loops _ _ _ Hcheck HsortedA).
  case_decide as Hzero.
  { intros [= <-]. right; right; right. by eexists. }
  destruct (sorted columnKey_lt columnKey (keys data)) as [sortedN|e'] eqn:HsortedN.
  - destruct (makePlot_loops_cases _ _ _ _ Hcheck HsortedA HsortedN) as [Hrefused Hdrawn].
    destruct (forallb _ sortedA).
    + destruct Hdrawn as (fig & -> & _); done.
    + destruct Hrefused as [_ ->]; [done|]. cbn [mbind outcome_bind].
      intros [= <-]. right; right; right. by eexists.
  - destruct (sorted_Ok _ _ _ _ HsortedA) as [HpermA _].
    destruct sortedA as [|approach sortedA].
    { apply Permutation_nil_l in HpermA. subst. simpl in Hzero. tauto. }
    cbn [for_each]. unfold makePlot_row at 2. rewrite HsortedN. cbn [mbind outcome_bind].
    intros [= <-]. apply sorted_Raise in HsortedN as (x & _ & Hx).
    apply columnKey_Raise in Hx. tauto.
Qed.

Lemma makePlot_draw_Ok_inv data fig :
  makePlot_draw data = Ok fig →
  ∃ approaches,
    checkApproachNames data = Ok approaches ∧ approaches ≠ []
    ∧ Forall (λ x, ∃ k, rowKey x = Ok k) approaches
    ∧ Forall (λ x, ∃ k, columnKey x = Ok k) (keys data)
    ∧ table_pies_ok data.
Proof.
  intros Hdraw. pose proof Hdraw as Hdraw'. revert Hdraw'. unfold makePlot_draw.
  destruct (checkApproachNames data) as [approaches|e'] eqn:Hcheck;
    cbn [mbind outcome_bind]; [|done].
  unfold subplots. case_decide as Hzero; cbn [mbind outcome_bind]; [done|].
  destruct (sorted rowKey_lt rowKey approaches) as [sortedA|e'] eqn:HsortedA;
    cbn [mbind outcome_bind]; [|done].
  destruct (sorted_Ok _ _ _ _ HsortedA) as [HpermA HkeysA].
  destruct sortedA as [|approach sortedA].
  { apply Permutation_nil_l in HpermA. subst. simpl in Hzero. tauto. }
  cbn [for_each]. unfold makePlot_row at 2.
  destruct (sorted columnKey_lt columnKey (keys data)) as [sortedN|e'] eqn:HsortedN;
    cbn [mbind outcome_bind]; [|done].
  destruct (sorted_Ok _ _ _ _ HsortedN) as [_ HkeysN].
  intros _.
  destruct (makePlot_draw_Ok_cells _ _ _ _ _ Hcheck HsortedA HsortedN Hdraw)
    as (Hne & Hok & _).
  exists approaches. split_and!; try done.
  by eapply forallb_cell_ok_pies.
Qed.

(** [main] on a table that has been loaded. *)
Lemma main_loaded reader output w data w1 :
  getData reader w = (Ok data, w1) →
  w1 = w ∧ main reader output w = makePlot data output w.
Proof.
  intros Hload. pose proof Hload as Hrows%getData_Ok_header.
  pose proof (getData_rows_world _ _ _ _ _ Hrows) as ->.
  split; [done|]. unfold main. by rewrite Hload.
Qed.

(** What [makePlot] does when it ends normally. *)
Lemma makePlot_Ok_inv data output w w' :
  makePlot data output w = (Ok (), w') →
  ∃ fig path,
    makePlot_draw data = Ok fig ∧ savefig_path output = Ok path
    ∧ w' = write_file path fig w.
Proof.
  unfold makePlot. destruct (makePlot_draw data) as [fig|e] eqn:Hdraw; [|done].
  unfold savefig. destruct (savefig_path output) as [path|e] eqn:Hpath; [|done].
  intros [= <-]. by exists fig, path.
Qed.

(** ... and when it fails. *)
Lemma makePlot_Raise_inv data output w w' e :
  makePlot data output w = (Raise e, w') →
  w' = w
  ∧ (makePlot_draw data = Raise e
     ∨ ∃ fig, makePlot_draw data = Ok fig ∧ savefig_path output = Raise e).
Proof.
  unfold makePlot. destruct (makePlot_draw data) as [fig|e'] eqn:Hdraw.
  - unfold savefig. destruct (savefig_path output) as [path|e'] eqn:Hpath; [done|].
    intros [= <- <-]. split; [done|]. right. by exists fig.
  - intros [= <- <-]. split; [done|]. by left.
Qed.

End makePlot_ends.

(** X10.  When [makePlot] fails the world is as it was, and either the
    drawing has failed, with [UnboundLocalError] (on the empty table only),
    [AssertionError], [AttributeError] or [ValueError] (an unknown method,
    a name that does not split in two, an empty grid, slices that [ax.pie]
    refuses), or the figure has been drawn and [savefig] has raised for the
    output path.  The loops of the drawing never exhaust the iterator, never
    index outside the grid and never miss a key of the table. *)
Theorem makePlot_errors `{Builtins F} (data : table) (output : str) (w w' : world F)
    (e : exn) :
  makePlot data output w = (Raise e, w') →
  w' = w
  ∧ ((makePlot_draw data = Raise e
      ∧ ((e = UnboundLocalError "approaches" ∧ data = [])
         ∨ e = AssertionError ∨ e = AttributeError ∨ ∃ why, e = ValueError why)
      ∧ e ≠ StopIteration ∧ e ≠ IndexError ∧ ∀ key, e ≠ KeyError key)
     ∨ (∃ fig, makePlot_draw data = Ok fig ∧ savefig_path output = Raise e)).
Proof.
  intros [-> [Hdraw|Hsave]]%makePlot_Raise_inv; (split; [done|]); [left|by right].
  split; [done|]. apply makePlot_draw_Raise in Hdraw. split; [done|].
  destruct Hdraw as [[-> _]|[->|[->|[why ->]]]]; by split_and!.
Qed.

Lemma makePlot_errors_witness :
  empty_world = empty_world
  ∧ ((makePlot_draw [("ORF1:A5G", [("Serum native", Some (-5)%Q)])]
      = Raise (ValueError bad_wedge_sizes)
      ∧ ((ValueError bad_wedge_sizes = UnboundLocalError "approaches"
          ∧ [("ORF1:A5G", [("Serum native", Some (-5)%Q)])] = [])
         ∨ ValueError bad_wedge_sizes = AssertionError
         ∨ ValueError bad_wedge_sizes = AttributeError
         ∨ ∃ why, ValueError bad_wedge_sizes = ValueError why)
      ∧ ValueError bad_wedge_sizes ≠ StopIteration
      ∧ ValueError bad_wedge_sizes ≠ IndexError
      ∧ ∀ key, ValueError bad_wedge_sizes ≠ KeyError key)
     ∨ (∃ fig : figure Q,
          makePlot_draw [("ORF1:A5G", [("Serum native", Some (-5)%Q)])] = Ok fig
          ∧ savefig_path "out.png" = Raise (ValueError bad_wedge_sizes))).
Proof.
  apply (makePlot_errors [("ORF1:A5G", [("Serum native", Some (-5)%Q)])] "out.png"
           empty_world empty_world).
  reflexivity.
Defined.

(** X11.  [makePlot] saves a figure exactly when the check returns a set of
    approach names that is not empty, every approach name has a row key,
    every mutation name has a column key, [ax.pie] accepts the slices of
    every number of the table and [savefig] accepts the output path; the
    figure it has drawn is then stored in the file that [savefig] writes for
    this path, and no other file changes. *)
Theorem makePlot_Ok_iff `{Builtins F} (data : table) (output : str) (w : world F) :
  ((∃ w', makePlot data output w = (Ok (), w'))
   ↔ ∃ approaches path,
       checkApproachNames data = Ok approaches ∧ approaches ≠ []
       ∧ Forall (λ x, ∃ k, rowKey x = Ok k) approaches
       ∧ Forall (λ x, ∃ k, columnKey x = Ok k) (keys data)
       ∧ table_pies_ok data
       ∧ savefig_path output = Ok path)
  ∧ (∀ w', makePlot data output w = (Ok (), w') →
       ∃ fig path,
         makePlot_draw data = Ok fig ∧ savefig_path output = Ok path
         ∧ files w' = <[path := fig]> (files w)).
Proof.
  split.
  - split.
    + intros [w' (fig & path & Hdraw & Hpath & _)%makePlot_Ok_inv].
      apply makePlot_draw_Ok_inv in Hdraw as (approaches & ? & ? & ? & ? & ?).
      by exists approaches, path.
    + intros (approaches & path & Hcheck & Hne & HkeysA & HkeysN & Hpies & Hpath).
      destruct (makePlot_draw_Ok data approaches) as [fig Hdraw]; [done..|].
      exists (write_file path fig w). unfold makePlot, savefig.
      by rewrite Hdraw, Hpath.
  - intros w' (fig & path & Hdraw & Hpath & ->)%makePlot_Ok_inv.
    by exists fig, path.
Qed.

(** X12.  The program ends normally exactly when the file loads, the check
    accepts the table, every approach name has a row key, every mutation
    name has a column key, [ax.pie] accepts the slices of every number and
    [savefig] accepts the output path.  A loaded table never makes the grid
    empty. *)
Theorem main_Ok_iff `{Builtins F} (reader : list (list str)) (output : str)
    (w : world F) :
  (∃ w', main reader output w = (Ok (), w'))
  ↔ ∃ (data : table) approaches path,
      getData reader w = (Ok data, w)
      ∧ checkApproachNames data = Ok approaches
      ∧ Forall (λ x, ∃ k, rowKey x = Ok k) approaches
      ∧ Forall (λ x, ∃ k, columnKey x = Ok k) (keys data)
      ∧ table_pies_ok data
      ∧ savefig_path output = Ok path.
Proof.
  split.
  - intros [w' Hmain].
    destruct (getData reader w) as [[data|e] w1] eqn:Hload.
    2: { unfold main in Hmain. by rewrite Hload in Hmain. }
    destruct (main_loaded _ output _ _ _ Hload) as [-> Hmain'].
    rewrite Hmain' in Hmain.
    apply makePlot_Ok_inv in Hmain as (fig & path & Hdraw & Hpath & _).
    apply makePlot_draw_Ok_inv in Hdraw as (approaches & ? & _ & ? & ? & ?).
    by exists data, approaches, path.
  - intros (data & approaches & path & Hload & Hcheck & HkeysA & HkeysN & Hpies & Hpath).
    destruct (main_loaded _ output _ _ _ Hload) as [_ ->].
    assert (approaches ≠ []) as Hne.
    { apply getData_Ok_header in Hload.
      assert (table_wf data) as [_ Hinner].
      { eapply getData_rows_wf; [|exact Hload]. split; constructor. }
      apply checkApproachNames_Ok in Hcheck as (name0 & inner0 & rest & -> & -> & _).
      apply Forall_cons in Hinner as [[Hinner0 _] _]. simpl in Hinner0.
      destruct inner0 as [|[approach v] inner0]; [done|].
      intros Hempty. assert (approach ∈ set_of ((approach, v) :: inner0)) as Hin.
      { apply set_of_elem. left. }
      rewrite Hempty in Hin. by apply elem_of_nil in Hin. }
    destruct (makePlot_draw_Ok data approaches) as [fig Hdraw]; [done..|].
    exists (write_file path fig w). unfold makePlot, savefig.
    by rewrite Hdraw, Hpath.
Qed.

(** X13.  A run that ends in an error writes no file ([savefig] refuses a
    path before it writes); a run that ends normally writes the one file
    that [savefig] writes for the output path and leaves every other file as
    it was. *)
Theorem main_effects `{Builtins F} (reader : list (list str)) (output : str)
    (w : world F) :
  (∀ e w', main reader output w = (Raise e, w') → files w' = files w)
  ∧ (∀ w', main reader output w = (Ok (), w') →
       ∃ path,
         savefig_path output = Ok path
         ∧ is_Some (files w' !! path)
         ∧ ∀ other, other ≠ path → files w' !! other = files w !! other).
Proof.
  split.
  - intros e w'. destruct (getData reader w) as [[data|e1] w1] eqn:Hload.
    + destruct (main_loaded _ output _ _ _ Hload) as [-> ->].
      by intros [-> _]%makePlot_Raise_inv.
    + unfold main. rewrite Hload. intros [= _ <-]. unfold getData in Hload.
      destruct reader as [|hd rows]; simpl in Hload; [by injection Hload as _ <-|].
      case_decide; [|by injection Hload as _ <-].
      destruct (getData_rows_effects rows [] w) as [Hfiles _].
      by rewrite Hload in Hfiles.
  - intros w'. destruct (getData reader w) as [[data|e1] w1] eqn:Hload.
    2: { unfold main. by rewrite Hload. }
    destruct (main_loaded _ output _ _ _ Hload) as [-> ->].
    intros (fig & path & _ & Hpath & ->)%makePlot_Ok_inv.
    exists path. simpl. split_and!; [done| |].
    + rewrite lookup_insert_eq. by eexists.
    + intros other Hother. by rewrite lookup_insert_ne.
Qed.

(** ** Labels of the panels *)

Lemma panel_calls_elem `{Builtins F} (percent : option F) (row col : nat)
    (approach name : str) (c : call F) :
  c ∈ panel_calls row col approach name percent
  ↔ (row = 0%nat ∧ c = set_title name)
    ∨ (col = 0%nat ∧ c = set_ylabel approach)
    ∨ (percent = None ∧ c = axis "off")
    ∨ (∃ p, percent = Some p ∧ c = pie (p, fsub hundred p) None None).
Proof.
  unfold panel_calls, panel_labels, panel_drawing.
  destruct percent as [p|]; repeat case_decide; simpl;
    rewrite ?elem_of_cons, ?elem_of_nil; split; intros Hc;
    destruct_or?; destruct_and?; simplify_eq; try done; eauto 10;
    try (destruct Hc as (? & ? & ?); simplify_eq); auto 10.
Qed.

(** X14.  In the figure that [makePlot] draws, a panel carries a title
    exactly when it is in the first row, and the title is the mutation name
    of its column; it carries a label of the y axis exactly when it is in
    the first column, and the label is the approach name of its row; and
    its axis is hidden exactly when the measurement is null. *)
Theorem makePlot_labels `{Builtins F} (data : table) (fig : figure F)
    (approaches : pyset) (sortedApproaches sortedNames : list str)
    (i j : nat) (approach name : str) :
  checkApproachNames data = Ok approaches →
  sorted rowKey_lt rowKey approaches = Ok sortedApproaches →
  sorted columnKey_lt columnKey (keys data) = Ok sortedNames →
  makePlot_draw data = Ok fig →
  sortedApproaches !! i = Some approach → sortedNames !! j = Some name →
  ∃ cell,
    panel_at fig i j = Some cell
    ∧ (∀ label, set_title label ∈ cell ↔ i = 0%nat ∧ label = name)
    ∧ (∀ label, set_ylabel label ∈ cell ↔ j = 0%nat ∧ label = approach)
    ∧ (axis "off" ∈ cell ↔ table_get data name approach = Some None).
Proof.
  intros Hcheck HsortedA HsortedN Hdraw Hi Hj.
  destruct (makePlot_draw_Ok_cells _ _ _ _ _ Hcheck HsortedA HsortedN Hdraw)
    as (_ & _ & _ & _ & Hcells).
  destruct (Hcells i j approach name Hi Hj) as (percent & Hp & Hcell).
  eexists. split; [exact Hcell|]. split_and!.
  - intros label. rewrite panel_calls_elem. split.
    + intros [[-> [= ->]]|[[_ ?]|[[_ ?]|(? & _ & ?)]]]; done.
    + intros [-> ->]. by left.
  - intros label. rewrite panel_calls_elem. split.
    + intros [[_ ?]|[[-> [= ->]]|[[_ ?]|(? & _ & ?)]]]; done.
    + intros [-> ->]. right; by left.
  - rewrite panel_calls_elem, Hp. split.
    + intros [[_ ?]|[[_ ?]|[[-> _]|(? & _ & ?)]]]; done.
    + intros [= ->]. right; right; by left.
Qed.

Lemma makePlot_labels_witness :
  ∃ cell,
    panel_at [[[set_title "ORF2:B100C"; set_ylabel "Serum native";
                pie (3, 100 - 3)%Q None None];
               [set_title "ORF10:A12T"; pie (12.5, 100 - 12.5)%Q None None]];
              [[set_ylabel "Serum cap"; pie (2, 100 - 2)%Q None None];
               [axis "off"]]] 1 1 = Some cell
    ∧ (∀ label, set_title label ∈ cell ↔ 1%nat = 0%nat ∧ label = "ORF10:A12T")
    ∧ (∀ label, set_ylabel label ∈ cell ↔ 1%nat = 0%nat ∧ label = "Serum cap")
    ∧ (axis "off" ∈ cell
       ↔ table_get example_table "ORF10:A12T" "Serum cap" = Some None).
Proof.
  apply (makePlot_labels example_table _
           ["Serum native"; "Serum cap"] ["Serum native"; "Serum cap"]
           ["ORF2:B100C"; "ORF10:A12T"]); reflexivity.
Defined.

(** ** Order and number of the measurements *)

Section dict_more.
Context {V : Type}.
Implicit Types (d : dict V) (k : str) (v : V).

Lemma dict_mem_keys k d : dict_mem k d = bool_decide (k ∈ keys d).
Proof.
  rewrite dict_mem_get. apply bool_decide_ext. split.
  - intros [v Hv]. by eapply dict_get_Some_keys.
  - apply dict_get_keys.
Qed.

Lemma length_setitem_new k v d :
  dict_get k d = None → length (setitem k v d) = S (length d).
Proof.
  induction d as [|[k' v'] d IH]; cbn [setitem dict_get length]; [done|].
  destruct (String.eqb k' k); [done|]. intros Hd. cbn [length]. by rewrite IH.
Qed.

Lemma dict_get_elem_of k v d : NoDup (keys d) → (k, v) ∈ d → dict_get k d = Some v.
Proof.
  unfold keys. induction d as [|[k' v'] d IH]; [by intros _ ?%elem_of_nil|].
  rewrite fmap_cons. intros [Hnotin Hnodup]%NoDup_cons [Hhd|Htl]%elem_of_cons;
    cbn [dict_get].
  - injection Hhd as -> ->. by rewrite String.eqb_refl.
  - destruct (String.eqb k' k) eqn:Hk; [|by apply IH].
    apply String.eqb_eq in Hk as ->. destruct Hnotin.
    exact (list_elem_of_fmap_2 fst d (k, v) Htl).
Qed.

End dict_more.

Section getData_count.
Context `{Builtins F}.
Implicit Types (acc data : dict (dict (option F))) (w : world F).

Lemma entries_cons name (inner : dict (option F)) acc :
  entries ((name, inner) :: acc) = (length inner + entries acc)%nat.
Proof. done. Qed.

Lemma entries_new_name acc name :
  entries (if dict_mem name acc then acc else setitem name [] acc) = entries acc.
Proof.
  rewrite dict_mem_get. case_bool_decide as Hname; [done|].
  apply eq_None_not_Some in Hname.
  induction acc as [|[k inner] acc IH]; [done|]. cbn [setitem dict_get] in *.
  destruct (String.eqb k name); [done|]. rewrite !entries_cons. by rewrite IH.
Qed.

Lemma entries_setitem acc name (inner inner' : dict (option F)) :
  dict_get name acc = Some inner →
  (entries (setitem name inner' acc) + length inner = entries acc + length inner')%nat.
Proof.
  induction acc as [|[k v] acc IH]; cbn [setitem dict_get]; [done|].
  destruct (String.eqb k name).
  - intros [= ->]. rewrite !entries_cons. lia.
  - intros Hget. rewrite !entries_cons. specialize (IH Hget). lia.
Qed.

(** The table a pass of the loop returns, spelled out. *)
Lemma getData_row_Ok_table name approach percent rest acc w acc' w' :
  getData_row [name; approach; percent; rest] acc w = (Ok acc', w') →
  ∃ inner v,
    dict_get name (if dict_mem name acc then acc else setitem name [] acc) = Some inner
    ∧ dict_get approach inner = None
    ∧ acc' = setitem name (setitem approach v inner)
               (if dict_mem name acc then acc else setitem name [] acc).
Proof.
  rewrite getData_row_4.
  destruct (dict_get_new_name acc name) as [inner Hinner].
  rewrite (getitem_Ok _ _ _ Hinner). rewrite dict_mem_get.
  case_bool_decide as Happroach; [done|]. apply eq_None_not_Some in Happroach.
  destruct (String.eqb percent ""); [intros [= <- _]; by eauto|].
  destruct (float percent); [intros [= <- _]; by eauto|done].
Qed.

Lemma getData_row_entries row acc w acc' w' :
  getData_row row acc w = (Ok acc', w') → entries acc' = S (entries acc).
Proof.
  intros Hrow. pose proof Hrow as (n & a & p & r & v0 & -> & _)%getData_row_Ok.
  apply getData_row_Ok_table in Hrow as (inner & v & Hinner & Hnew & ->).
  pose proof (entries_setitem _ _ _ (setitem a v inner) Hinner) as Hsum.
  rewrite entries_new_name, length_setitem_new in Hsum by done. lia.
Qed.

Lemma getData_row_keys row acc w acc' w' :
  getData_row row acc w = (Ok acc', w') →
  ∃ name approach percent rest,
    row = [name; approach; percent; rest]
    ∧ keys acc'
      = if bool_decide (name ∈ keys acc) then keys acc else keys acc ++ [name].
Proof.
  intros Hrow. pose proof Hrow as (n & a & p & r & v0 & -> & _)%getData_row_Ok.
  apply getData_row_Ok_table in Hrow as (inner & v & Hinner & Hnew & ->).
  exists n, a, p, r. split; [done|].
  rewrite keys_setitem_old by by eexists.
  rewrite dict_mem_keys. case_bool_decide as Hn; [done|].
  apply keys_setitem_new. apply eq_None_not_Some. intros [v' Hv'].
  by eapply Hn, dict_get_Some_keys.
Qed.

Lemma getData_rows_entries rows acc w data w' :
  getData_rows rows acc w = (Ok data, w') →
  entries data = (entries acc + length rows)%nat.
Proof.
  revert acc w. induction rows as [|row rows IH]; intros acc w; cbn [getData_rows length].
  - intros [= <- _]. lia.
  - destruct (getData_row row acc w) as [[acc1|e] w1] eqn:Hrow; [|done].
    intros Hrows%IH. apply getData_row_entries in Hrow. lia.
Qed.

Lemma getData_rows_keys rows acc w data w' :
  getData_rows rows acc w = (Ok data, w') →
  keys data = first_seen_from (keys acc) (row_names rows).
Proof.
  revert acc w. induction rows as [|row rows IH]; intros acc w; cbn [getData_rows].
  - by intros [= <- _].
  - destruct (getData_row row acc w) as [[acc1|e] w1] eqn:Hrow; [|done].
    intros Hrows%IH. apply getData_row_keys in Hrow as (n & a & p & r & -> & Hkeys).
    unfold row_names; cbn [omap list_omap]. fold (row_names rows).
    cbn [first_seen_from]. by rewrite <-Hkeys.
Qed.

Lemma entries_same_length data r :
  Forall (λ entry, length entry.2 = r) data → entries data = (length data * r)%nat.
Proof.
  induction 1 as [|[name inner] data Hinner _ IH]; [done|].
  rewrite entries_cons, IH. simpl in *. lia.
Qed.

End getData_count.

(** X15.  A loaded table lists the mutations in the order in which the data
    rows first name them. *)
Theorem getData_keys_order `{Builtins F} (reader : list (list str)) (w w' : world F)
    (data : table) :
  getData reader w = (Ok data, w') →
  keys data = first_seen_from [] (row_names (tail reader)).
Proof. intros Hload%getData_Ok_header. by apply getData_rows_keys in Hload. Qed.

Lemma getData_keys_order_witness :
  keys example_table = first_seen_from [] (row_names (tail example_rows)).
Proof.
  apply (getData_keys_order example_rows empty_world empty_world). reflexivity.
Defined.

(** X16.  When the check accepts a loaded table, the file has exactly one
    data row for each panel of the grid: the number of data rows is the
    number of approach names times the number of mutations. *)
Theorem getData_rows_panels `{Builtins F} (reader : list (list str)) (w w' : world F)
    (data : table) (approaches : pyset) :
  getData reader w = (Ok data, w') →
  checkApproachNames data = Ok approaches →
  length (tail reader) = (length approaches * length data)%nat.
Proof.
  intros Hload%getData_Ok_header Hcheck.
  assert (table_wf data) as [Hkeys Hinner].
  { eapply getData_rows_wf; [|exact Hload]. split; constructor. }
  apply getData_rows_entries in Hload. change (entries []) with 0%nat in Hload.
  rewrite (entries_same_length data (length approaches)) in Hload; [lia|].
  apply checkApproachNames_Ok in Hcheck as (name0 & inner0 & rest & Hdata & -> & Hsame).
  apply Forall_forall. intros [name inner] Hin. cbn [snd].
  assert (name ∈ keys data) as Hname by exact (list_elem_of_fmap_2 fst data _ Hin).
  destruct (Hsame name Hname) as (inner' & Hget & Hsets).
  rewrite (dict_get_elem_of _ _ _ Hkeys Hin) in Hget. injection Hget as <-.
  rewrite Forall_forall in Hinner. destruct (Hinner _ Hin) as [_ Hnodup]. cbn [snd] in Hnodup.
  transitivity (length (keys inner)); [unfold keys; by rewrite length_fmap|].
  apply Permutation_length, NoDup_Permutation; [done|apply set_iter_NoDup|].
  intros a. rewrite set_of_elem. apply Hsets.
Qed.

Lemma getData_rows_panels_witness :
  length (tail example_rows) = (length ["Serum native"; "Serum cap"] * length example_table)%nat.
Proof.
  apply (getData_rows_panels example_rows empty_world empty_world); reflexivity.
Defined.
